(** * EagleWings simulation: battery monitor, charging-spot search, command executor

    A shallow embedding of [simulation.py] (the retrying command wrapper)
    and of [enhanced_simulation.py] (class [EnhancedSimulation]).

    Conventions of the embedding.
    - Python integers are [Z]. Durations and clock readings, floats in the
      source ([time.time()], [time.sleep(0.1)], [search_timeout = 30.0]),
      are integer milliseconds in [Z].
    - The drone, its camera and the marker detector are external. What
      they answer is an input of the model: an oracle gives, for each
      invocation, whether a call completes or raises and what it returns.
    - [hasattr(self.tello, ...)] tests are the boolean fields of [Tello].
    - Every operation returns the object after the call, the clock and
      the list of events it performed (guard acquisition and release,
      field writes, callback invocations, drone commands, sleeps).
      Log lines are not recorded. *)

From Equations Require Import Equations.
From Equations.Prop Require Import Logic.
From Stdlib Require Import ZArith Lia List Bool.
From stdpp Require Import base option list gmap strings.
Import ListNotations.

Local Open Scope Z_scope.

(* ===================================================================== *)
(** * simulation.py *)
(* ===================================================================== *)

Module Simulation.

(** What one invocation [command_func( *args )] does. The wrapper has a
    single handler, [except TelloException], so the two kinds of
    exception are told apart. *)
Inductive attempt :=
| Completes
| RaisesTelloException
| RaisesOther.

(** How a call of [safe_command] ends for its caller. *)
Inductive ending :=
| Returns (b : bool)
| Propagates.

Inductive action :=
| Invoke (attempt_no : nat)
| LogInfo
| LogWarning (attempt_no : nat)
| LogError
| Sleep (ms : Z).

(** The body of [for attempt in range(1, retries + 1)], with [attempt]
    the current value of the loop variable and [remaining] the number of
    values of the range not yet taken. The handler of [TelloException]
    logs a warning and calls [time.sleep(delay)], which raises
    [ValueError] on a negative [delay]: raised inside the handler, it
    leaves the loop and reaches the caller. *)
Fixpoint attempts (command_func : nat -> attempt) (delay : Z)
    (attempt_no remaining : nat) : ending * list action :=
  match remaining with
  | O => (Returns false, [LogError])
  | S remaining' =>
      match command_func attempt_no with
      | Completes => (Returns true, [Invoke attempt_no; LogInfo])
      | RaisesOther => (Propagates, [Invoke attempt_no])
      | RaisesTelloException =>
          if delay <? 0 then
            (Propagates, [Invoke attempt_no; LogWarning attempt_no])
          else
            let '(e, tr) :=
              attempts command_func delay (S attempt_no) remaining' in
            (e, Invoke attempt_no :: LogWarning attempt_no
                  :: Sleep delay :: tr)
      end
  end.

(** [safe_command(command_func, *args, retries=3, delay=1, ...)].
    [range(1, retries + 1)] has [max 0 retries] elements. *)
Definition safe_command (command_func : nat -> attempt)
    (retries : Z) (delay : Z) : ending * list action :=
  attempts command_func delay 1 (Z.to_nat retries).

(** Number of times the action was invoked. *)
Fixpoint invocations (tr : list action) : nat :=
  match tr with
  | [] => 0%nat
  | Invoke _ :: tr' => S (invocations tr')
  | _ :: tr' => invocations tr'
  end.




(** ** [get_battery_level] *)

(** What one call [drone.get_battery()] does. *)
Inductive battery_attempt :=
| Answers (battery : Z)
| BatteryRaisesTelloException
| BatteryRaisesOther.

(** How a call of [get_battery_level] ends for its caller. *)
Inductive reading :=
| Read (battery : option Z)
| ReadPropagates.

(** The loop of [get_battery_level]. [time.sleep] raises [ValueError]
    on a negative [delay]; the handler does not catch it. *)
Fixpoint battery_attempts (get_battery : nat -> battery_attempt) (delay : Z)
    (attempt_no remaining : nat) : reading * list action :=
  match remaining with
  | O => (Read None, [LogError])
  | S remaining' =>
      match get_battery attempt_no with
      | Answers battery => (Read (Some battery), [Invoke attempt_no; LogInfo])
      | BatteryRaisesOther => (ReadPropagates, [Invoke attempt_no])
      | BatteryRaisesTelloException =>
          if delay <? 0 then
            (ReadPropagates, [Invoke attempt_no; LogWarning attempt_no])
          else
            let '(e, tr) :=
              battery_attempts get_battery delay (S attempt_no) remaining' in
            (e, Invoke attempt_no :: LogWarning attempt_no
                  :: Sleep delay :: tr)
      end
  end.

(** [get_battery_level(drone, retries=3, delay=1)]. *)
Definition get_battery_level (get_battery : nat -> battery_attempt)
    (retries : Z) (delay : Z) : reading * list action :=
  battery_attempts get_battery delay 1 (Z.to_nat retries).



(** ** [main] *)

(** The methods of the drone that [main] calls. *)
Inductive method :=
| connect
| get_battery
| streamon
| get_frame_read
| takeoff
| land
| move_forward (x : Z)
| rotate_clockwise (x : Z)
| streamoff
| end_.

(** The places of [main] where [safe_command] is called; those inside
    the marker loop carry the number of the pass. *)
Inductive site :=
| StartVideoStream
| Takeoff
| EmergencyLanding
| Landing
| ManualLanding (pass : nat)
| MoveForward (pass : nat)
| LandingOnMarker (pass : nat)
| RotateClockwise (pass : nat)
| FallbackLanding
| StopVideoStream
| HandlerLanding
| HandlerStopVideoStream.

Definition method_of (st : site) : method :=
  match st with
  | StartVideoStream => streamon
  | Takeoff => takeoff
  | EmergencyLanding | Landing | ManualLanding _ | LandingOnMarker _
  | FallbackLanding | HandlerLanding => land
  | MoveForward _ => move_forward 30
  | RotateClockwise _ => rotate_clockwise 30
  | StopVideoStream | HandlerStopVideoStream => streamoff
  end.

(** A call made outside [safe_command] completes or raises. *)
Inductive direct := Succeeds | Fails.

(** What the camera and the window give in one pass of the marker
    loop: whether a frame is there, whether the OpenCV calls of the
    pass complete, whether [ids] is not [None], and whether the key
    read by [waitKey] is [q]. *)
Record view := mkView {
  has_frame : bool;
  vision : direct;
  ids : bool;
  key_q : bool
}.

Inductive block := Body | Handler.

(** The surroundings of one run of [main]: what each call of the
    drone, of OpenCV and of the two retrying wrappers does. Exceptions
    come from these calls only; a keyboard interrupt that arrives
    between two of them, or during a sleep, is not represented. The
    two handlers of [main] run the same statements, so one kind of
    exception is enough. *)
Record mission := mkMission {
  create : direct;                            (* [Tello()] *)
  connecting : direct;                        (* [drone.connect()] *)
  battery_before : nat -> battery_attempt;    (* first [get_battery_level] *)
  battery_after : nat -> battery_attempt;     (* second [get_battery_level] *)
  frame_reading : direct;                     (* [drone.get_frame_read()] *)
  command : site -> nat -> attempt;           (* each [safe_command] *)
  views : nat -> view;
  destroy_windows : block -> direct;          (* [cv2.destroyAllWindows()] *)
  ending_drone : block -> direct              (* [drone.end()] *)
}.

Inductive mevent :=
| Called (m : method)
| Slept (ms : Z)
| Shown (pass : nat)                  (* [cv2.imshow] in a pass *)
| WindowsDestroyed.                   (* [cv2.destroyAllWindows()] *)

(** The calls and sleeps of a [safe_command] or [get_battery_level]
    call on method [m]. *)
Fixpoint replay (m : method) (tr : list action) : list mevent :=
  match tr with
  | [] => []
  | Invoke _ :: tr' => Called m :: replay m tr'
  | Sleep ms :: tr' => Slept ms :: replay m tr'
  | _ :: tr' => replay m tr'
  end.

(** Where control goes after a step of [main]: on with a value, to the
    exception handlers, or out of the function through [return]. *)
Inductive flow (A : Type) :=
| Value (a : A)
| Raise
| Leave.
Arguments Value {A} a.
Arguments Raise {A}.
Arguments Leave {A}.

Definition script (A : Type) : Type := flow A * list mevent.

Definition bind {A B : Type} (x : script A) (k : A -> script B)
    : script B :=
  match x with
  | (Value a, tr) => let '(r, tr') := k a in (r, tr ++ tr')
  | (Raise, tr) => (Raise, tr)
  | (Leave, tr) => (Leave, tr)
  end.

Declare Scope script_scope.
Delimit Scope script_scope with script.
Notation "x <- c ;; k" := (bind c (fun x => k))
  (at level 100, c at next level, right associativity) : script_scope.
Notation "c ;;; k" := (bind c (fun _ => k))
  (at level 100, right associativity) : script_scope.
Local Open Scope script_scope.

Definition pure {A : Type} (a : A) : script A := (Value a, []).
Definition leave {A : Type} : script A := (Leave, []).
Definition pause (ms : Z) : script unit := (Value tt, [Slept ms]).

Definition call_direct (d : direct) (m : method) : script unit :=
  (match d with Succeeds => Value tt | Fails => Raise end, [Called m]).

Definition close_windows (d : direct) : script unit :=
  (match d with Succeeds => Value tt | Fails => Raise end,
   [WindowsDestroyed]).

(** [safe_command(drone.<method>, ..., description=...)] at [st], with
    the default three attempts one second apart. *)
Definition safe (ms : mission) (st : site) : script bool :=
  let '(e, tr) := safe_command (command ms st) 3 1000 in
  (match e with Returns b => Value b | Propagates => Raise end,
   replay (method_of st) tr).

(** [get_battery_level(drone)], with its defaults. *)
Definition battery (get : nat -> battery_attempt) : script (option Z) :=
  let '(e, tr) := get_battery_level get 3 1000 in
  (match e with Read b => Value b | ReadPropagates => Raise end,
   replay get_battery tr).

(** The marker loop [while not found and attempts < 12] of [main];
    [remaining] is [12 - attempts]. The value is [found] when the loop
    is left. *)
Fixpoint marker_loop (ms : mission) (remaining attempts : nat)
    : script bool :=
  match remaining with
  | O => pure false
  | S remaining' =>
      let v := views ms attempts in
      if negb (has_frame v) then
        pause 500 ;;; marker_loop ms remaining' (S attempts)
      else
        (match vision v with
         | Succeeds => (Value tt, [Shown attempts])
         | Fails => (Raise, [])
         end) ;;;
        if key_q v then
          safe ms (ManualLanding attempts) ;;; pure false
        else if ids v then
          moved <- safe ms (MoveForward attempts) ;;
          (if moved then
             pause 2000 ;;; safe ms (LandingOnMarker attempts) ;;; pure true
           else pure true)
        else
          safe ms (RotateClockwise attempts) ;;;
          pause 1000 ;;;
          marker_loop ms remaining' (S attempts)
  end.

(** The statements of [main] under [# --- Cleanup ---]. *)
Definition wrap_up (ms : mission) : script unit :=
  safe ms StopVideoStream ;;;
  close_windows (destroy_windows ms Body) ;;;
  call_direct (ending_drone ms Body) end_.

(** The statements of [main] that follow a completed take-off. *)
Definition flight (ms : mission) : script unit :=
  pause 2000 ;;;
  level <- battery (battery_after ms) ;;
  match level with
  | None => safe ms EmergencyLanding ;;; leave
  | Some b =>
      (if 45 <=? b then safe ms Landing ;;; pure tt
       else
         found <- marker_loop ms 12 0 ;;
         if negb found then safe ms FallbackLanding ;;; pure tt
         else pure tt) ;;;
      wrap_up ms
  end.

(** The statements of [main] inside [try]. *)
Definition mission_body (ms : mission) : script unit :=
  call_direct (connecting ms) connect ;;;
  level <- battery (battery_before ms) ;;
  match level with
  | None => leave
  | Some _ =>
      streaming <- safe ms StartVideoStream ;;
      if negb streaming then leave
      else
        call_direct (frame_reading ms) get_frame_read ;;;
        airborne <- safe ms Takeoff ;;
        if negb airborne then leave else flight ms
  end.

(** The body shared by the two handlers [except KeyboardInterrupt] and
    [except Exception]; they differ by a log line. *)
Definition handler (ms : mission) : script unit :=
  safe ms HandlerLanding ;;;
  safe ms HandlerStopVideoStream ;;;
  close_windows (destroy_windows ms Handler) ;;;
  call_direct (ending_drone ms Handler) end_.

(** How [main] ends: it returns, or an exception leaves it. *)
Inductive finish := Completed | Escaped.

(** [main]. [Tello()] is outside the [try]; an exception raised in the
    handler leaves [main]. *)
Definition main (ms : mission) : finish * list mevent :=
  match create ms with
  | Fails => (Escaped, [])
  | Succeeds =>
      match mission_body ms with
      | (Raise, tr) =>
          let '(r, tr') := handler ms in
          (match r with Raise => Escaped | _ => Completed end, tr ++ tr')
      | (_, tr) => (Completed, tr)
      end
  end.

Definition method_eqb (m m' : method) : bool :=
  match m, m' with
  | connect, connect | get_battery, get_battery
  | streamon, streamon | get_frame_read, get_frame_read
  | takeoff, takeoff | land, land | streamoff, streamoff
  | end_, end_ => true
  | move_forward x, move_forward y
  | rotate_clockwise x, rotate_clockwise y => x =? y
  | _, _ => false
  end.

(** Number of calls of method [m] in a trace. *)
Fixpoint calls (m : method) (tr : list mevent) : nat :=
  match tr with
  | [] => 0%nat
  | Called m' :: tr' =>
      if method_eqb m m' then S (calls m tr') else calls m tr'
  | _ :: tr' => calls m tr'
  end.

(** A command that works at once, and one that fails three times. *)
Definition works : nat -> attempt := fun _ => Completes.
Definition broken : nat -> attempt := fun _ => RaisesTelloException.

(** A battery at [b] percent. *)
Definition charged (b : Z) : nat -> battery_attempt := fun _ => Answers b.

(** A marker in every frame, and a drone that takes off but then
    refuses to advance. *)
Definition stuck : mission :=
  {| create := Succeeds; connecting := Succeeds;
     battery_before := charged 30; battery_after := charged 30;
     frame_reading := Succeeds;
     command := fun st => match st with MoveForward _ => broken | _ => works end;
     views := fun _ => mkView true Succeeds true false;
     destroy_windows := fun _ => Succeeds;
     ending_drone := fun _ => Succeeds |}.

(** No marker in any frame. *)
Definition barren : mission :=
  {| create := Succeeds; connecting := Succeeds;
     battery_before := charged 30; battery_after := charged 30;
     frame_reading := Succeeds;
     command := fun _ => works;
     views := fun _ => mkView true Succeeds false false;
     destroy_windows := fun _ => Succeeds;
     ending_drone := fun _ => Succeeds |}.

(** Everything works and the battery is at 80 percent. *)
Definition fit : mission :=
  {| create := Succeeds; connecting := Succeeds;
     battery_before := charged 80; battery_after := charged 80;
     frame_reading := Succeeds;
     command := fun _ => works;
     views := fun _ => mkView true Succeeds true false;
     destroy_windows := fun _ => Succeeds;
     ending_drone := fun _ => Succeeds |}.

(** The drone does not take off. *)
Definition grounded : mission :=
  {| create := Succeeds; connecting := Succeeds;
     battery_before := charged 80; battery_after := charged 80;
     frame_reading := Succeeds;
     command := fun st => match st with Takeoff => broken | _ => works end;
     views := fun _ => mkView true Succeeds false false;
     destroy_windows := fun _ => Succeeds;
     ending_drone := fun _ => Succeeds |}.

(** How the [safe_command] call at [st] ends, and how many times it
    invokes its method. *)
Definition outcome (ms : mission) (st : site) : ending :=
  fst (safe_command (command ms st) 3 1000).

Definition tries (ms : mission) (st : site) : nat :=
  invocations (snd (safe_command (command ms st) 3 1000)).

(** A level was read before take-off, the stream was switched on, the
    frame reader was obtained and the take-off command completed. *)
Definition airborne (ms : mission) : Prop :=
  create ms = Succeeds /\ connecting ms = Succeeds /\
  (exists b, fst (get_battery_level (battery_before ms) 3 1000)
             = Read (Some b)) /\
  outcome ms StartVideoStream = Returns true /\
  frame_reading ms = Succeeds /\
  outcome ms Takeoff = Returns true.

(** At pass [k] a marker is seen and the advance fails. *)
Definition approach_fails (ms : mission) (k : nat) : Prop :=
  has_frame (views ms k) = true /\ vision (views ms k) = Succeeds /\
  key_q (views ms k) = false /\ ids (views ms k) = true /\
  outcome ms (MoveForward k) = Returns false.

Fixpoint shows (tr : list mevent) : nat :=
  match tr with
  | [] => 0%nat
  | Shown _ :: tr' => S (shows tr')
  | _ :: tr' => shows tr'
  end.

End Simulation.

(* ===================================================================== *)
(** * enhanced_simulation.py *)
(* ===================================================================== *)

Module Enhanced.

(** Case analysis on a scrutinee of the goal that has no case analysis
    inside it. *)
Ltac case_innermost :=
  match goal with
  | |- context [match ?x with _ => _ end] =>
      lazymatch x with
      | context [match _ with _ => _ end] => fail
      | _ => destruct x
      end
  end.

(** ** Data *)

Inductive BatteryStatus := NORMAL | WARNING | CRITICAL | CHARGING.

Definition value (s : BatteryStatus) : string :=
  match s with
  | NORMAL => "normal"
  | WARNING => "warning"
  | CRITICAL => "critical"
  | CHARGING => "charging"
  end.

Definition status_eqb (a b : BatteryStatus) : bool :=
  match a, b with
  | NORMAL, NORMAL | WARNING, WARNING
  | CRITICAL, CRITICAL | CHARGING, CHARGING => true
  | _, _ => false
  end.

Record BatteryConfig := mkBatteryConfig {
  warning_threshold : Z;
  critical_threshold : Z;
  charging_threshold : Z;
  check_interval : Z          (* milliseconds *)
}.

Record ArUcoConfig := mkArUcoConfig {
  dictionary_type : Z;
  marker_size : Z;            (* millimetres *)
  search_timeout : Z;         (* milliseconds *)
  approach_distance : Z
}.

(** [cv2.aruco.DICT_4X4_50]. *)
Definition DICT_4X4_50 : Z := 0.

(** The capabilities probed with [hasattr] on the drone object. *)
Record Tello := mkTello {
  has_get_battery : bool;
  has_get_frame_read : bool;
  has_streamon : bool;
  has_rotate_clockwise : bool;
  has_move_forward : bool
}.

Definition point : Type := Z * Z.

(** A registered callback either returns or raises; every call site
    wraps it in [try ... except Exception]. *)
Inductive call := Done | Raises.

Record Thread := mkThread {
  thread_name : string;
  daemon : bool
}.

Record EnhancedSimulation := mkSim {
  tello : Tello;
  config : gmap string Z;
  battery_config : BatteryConfig;
  aruco_config : ArUcoConfig;
  is_running : bool;
  is_monitoring : bool;
  current_battery_status : BatteryStatus;
  last_battery_level : Z;
  charging_spot_found : bool;
  charging_spot_position : option point;
  monitor_thread : option Thread;
  battery_callback : option (Z -> BatteryStatus -> call);
  charging_callback : option (Z -> call);
  status_callback : option call
}.

(** Attribute assignments [self.x = v]. *)
Definition set_battery_config (c : BatteryConfig) (s : EnhancedSimulation) :=
  mkSim (tello s) (config s) c (aruco_config s) (is_running s)
    (is_monitoring s) (current_battery_status s) (last_battery_level s)
    (charging_spot_found s) (charging_spot_position s) (monitor_thread s)
    (battery_callback s) (charging_callback s) (status_callback s).

Definition set_is_monitoring (b : bool) (s : EnhancedSimulation) :=
  mkSim (tello s) (config s) (battery_config s) (aruco_config s)
    (is_running s) b (current_battery_status s) (last_battery_level s)
    (charging_spot_found s) (charging_spot_position s) (monitor_thread s)
    (battery_callback s) (charging_callback s) (status_callback s).

Definition set_current_battery_status (b : BatteryStatus)
    (s : EnhancedSimulation) :=
  mkSim (tello s) (config s) (battery_config s) (aruco_config s)
    (is_running s) (is_monitoring s) b (last_battery_level s)
    (charging_spot_found s) (charging_spot_position s) (monitor_thread s)
    (battery_callback s) (charging_callback s) (status_callback s).

Definition set_last_battery_level (v : Z) (s : EnhancedSimulation) :=
  mkSim (tello s) (config s) (battery_config s) (aruco_config s)
    (is_running s) (is_monitoring s) (current_battery_status s) v
    (charging_spot_found s) (charging_spot_position s) (monitor_thread s)
    (battery_callback s) (charging_callback s) (status_callback s).

Definition set_charging_spot_found (b : bool) (s : EnhancedSimulation) :=
  mkSim (tello s) (config s) (battery_config s) (aruco_config s)
    (is_running s) (is_monitoring s) (current_battery_status s)
    (last_battery_level s) b (charging_spot_position s) (monitor_thread s)
    (battery_callback s) (charging_callback s) (status_callback s).

Definition set_charging_spot_position (p : option point)
    (s : EnhancedSimulation) :=
  mkSim (tello s) (config s) (battery_config s) (aruco_config s)
    (is_running s) (is_monitoring s) (current_battery_status s)
    (last_battery_level s) (charging_spot_found s) p (monitor_thread s)
    (battery_callback s) (charging_callback s) (status_callback s).

Definition set_monitor_thread (t : option Thread) (s : EnhancedSimulation) :=
  mkSim (tello s) (config s) (battery_config s) (aruco_config s)
    (is_running s) (is_monitoring s) (current_battery_status s)
    (last_battery_level s) (charging_spot_found s)
    (charging_spot_position s) t
    (battery_callback s) (charging_callback s) (status_callback s).

(** ** Events *)

Inductive field :=
| LastBatteryLevel
| CurrentBatteryStatus
| ChargingSpotFound
| ChargingSpotPosition
| BatteryConfigField.

Inductive command :=
| StreamOn
| GetFrameRead
| RotateClockwise (degrees : Z)
| MoveForward (distance : Z).

Inductive event :=
| Acquire                                  (* entering [with self.lock] *)
| Release                                  (* leaving it *)
| Write (f : field)
| BatteryCallback (level : Z) (st : BatteryStatus)
| ChargingCallback (level : Z)
| StatusCallback
| HandleCritical                           (* [_handle_critical_battery] *)
| SearchStart                              (* [_search_charging_spot] *)
| Command (c : command)
| Sleep (ms : Z)
| StartThread                              (* [monitor_thread.start()] *)
| JoinThread (timeout_ms : Z).

(** ** Construction and configuration *)

(** [EnhancedSimulation.__init__(tello_instance, config)]. *)
Definition __init__ (tello_instance : Tello)
    (config : option (gmap string Z)) : EnhancedSimulation :=
  let cfg : gmap string Z := default ∅ config in      (* [config or {}] *)
  {| tello := tello_instance;
     config := cfg;
     battery_config :=
       {| warning_threshold := default 20 (cfg !! "warning_threshold");
          critical_threshold := default 10 (cfg !! "critical_threshold");
          charging_threshold := default 5 (cfg !! "charging_threshold");
          check_interval := default 5000 (cfg !! "check_interval") |};
     aruco_config :=
       {| dictionary_type := default DICT_4X4_50 (cfg !! "aruco_dict");
          marker_size := default 50 (cfg !! "marker_size");
          search_timeout := default 30000 (cfg !! "search_timeout");
          approach_distance := default 30 (cfg !! "approach_distance") |};
     is_running := false;
     is_monitoring := false;
     current_battery_status := NORMAL;
     last_battery_level := 100;
     charging_spot_found := false;
     charging_spot_position := None;
     monitor_thread := None;
     battery_callback := None;
     charging_callback := None;
     status_callback := None |}.

(** [set_callbacks]. *)
Definition set_callbacks (b : option (Z -> BatteryStatus -> call))
    (c : option (Z -> call)) (g : option call)
    (s : EnhancedSimulation) : EnhancedSimulation :=
  mkSim (tello s) (config s) (battery_config s) (aruco_config s)
    (is_running s) (is_monitoring s) (current_battery_status s)
    (last_battery_level s) (charging_spot_found s)
    (charging_spot_position s) (monitor_thread s) b c g.

(** [update_config]: each recognised key present in [new_config]
    overwrites its field; nothing is checked. *)
Definition update_config (new_config : gmap string Z)
    (s : EnhancedSimulation) : EnhancedSimulation * list event :=
  let c0 := battery_config s in
  let c1 := match new_config !! "warning_threshold" with
            | Some v => mkBatteryConfig v (critical_threshold c0)
                          (charging_threshold c0) (check_interval c0)
            | None => c0
            end in
  let c2 := match new_config !! "critical_threshold" with
            | Some v => mkBatteryConfig (warning_threshold c1) v
                          (charging_threshold c1) (check_interval c1)
            | None => c1
            end in
  let c3 := match new_config !! "charging_threshold" with
            | Some v => mkBatteryConfig (warning_threshold c2)
                          (critical_threshold c2) v (check_interval c2)
            | None => c2
            end in
  let c4 := match new_config !! "check_interval" with
            | Some v => mkBatteryConfig (warning_threshold c3)
                          (critical_threshold c3) (charging_threshold c3) v
            | None => c3
            end in
  let writes (k : string) : list event :=
    match new_config !! k with
    | Some _ => [Write BatteryConfigField]
    | None => []
    end in
  (set_battery_config c4 s,
   [Acquire] ++ writes "warning_threshold" ++ writes "critical_threshold"
     ++ writes "charging_threshold" ++ writes "check_interval"
     ++ [Release]).

(** [reset_charging_spot_status]. *)
Definition reset_charging_spot_status (s : EnhancedSimulation)
    : EnhancedSimulation * list event :=
  (set_charging_spot_position None (set_charging_spot_found false s),
   [Acquire; Write ChargingSpotFound; Write ChargingSpotPosition; Release]).

(** ** Starting and stopping the monitor *)

(** What a method hands back to its caller: [True]/[False], or [None]
    when the body ends without a [return] statement. *)
Inductive retval :=
| PyBool (b : bool)
| PyNone.

Definition BatteryMonitor : Thread :=
  {| thread_name := "BatteryMonitor"; daemon := true |}.

(** [start_monitoring]. *)
Definition start_monitoring (s : EnhancedSimulation)
    : retval * EnhancedSimulation * list event :=
  if is_monitoring s then (PyBool false, s, [])
  else
    (PyBool true,
     set_monitor_thread (Some BatteryMonitor) (set_is_monitoring true s),
     [StartThread]).

(** [stop_monitoring]; [alive] is the answer of
    [self.monitor_thread.is_alive()]. *)
Definition stop_monitoring (alive : bool) (s : EnhancedSimulation)
    : retval * EnhancedSimulation * list event :=
  let s' := set_is_monitoring false s in
  (PyNone, s',
   match monitor_thread s' with
   | Some _ => if alive then [JoinThread 2000] else []
   | None => []
   end).

(** [cleanup]. *)
Definition cleanup (alive : bool) (s : EnhancedSimulation)
    : retval * EnhancedSimulation * list event :=
  let '(_, s', evs) := stop_monitoring alive s in (PyNone, s', evs).

(** ** Reading and classifying the battery level *)

(** What [self.tello.get_battery()] does when called. *)
Inductive battery_read :=
| ReadRaises
| ReadValue (battery : option Z).

(** [_get_battery_level]. *)
Definition _get_battery_level (s : EnhancedSimulation) (r : battery_read)
    : option Z :=
  if has_get_battery (tello s) then
    match r with
    | ReadValue (Some battery) =>
        if (0 <=? battery) && (battery <=? 100) then Some battery else None
    | ReadValue None => None
    | ReadRaises => None
    end
  else None.

(** The [if]/[elif] chain of [_process_battery_level] that computes
    [new_status]. *)
Definition new_status (c : BatteryConfig) (battery_level : Z)
    : BatteryStatus :=
  if battery_level <=? charging_threshold c then CRITICAL
  else if battery_level <=? critical_threshold c then CRITICAL
  else if battery_level <=? warning_threshold c then WARNING
  else NORMAL.

(** ** Marker detection and approach *)

(** What reading [frame_reader.frame] gives. *)
Inductive fetch :=
| FetchRaises
| Fetched (frame : option nat).

(** What the end of one iteration of the loop over the markers gives:
    [ids[i][0]] and the log line, which come after the two field
    writes, complete with the id of the marker or raise. An exception
    raised before the writes of an iteration leaves the object as one
    raised at the end of the iteration before it does, and as
    [DetectRaises] does when there is no iteration before it. *)
Inductive lookup :=
| Id (marker_id : Z)
| LookupRaises.

(** What [cvtColor] followed by [detectMarkers] gives on a frame: an
    exception, or [ids] ([None] when nothing is seen) with, for each
    entry of [corners], the lookup of its id and the centre of its
    corners. *)
Inductive detection :=
| DetectRaises
| Ids (ids : option (list (lookup * point))).

(** The behaviour of the camera, the detector and the drone during one
    pass of the search loop. [overhead] is the time the pass spends
    outside its [time.sleep] calls. *)
Record tick := mkTick {
  frame1 : fetch;
  detect1 : detection;
  move : call;
  frame2 : fetch;
  detect2 : detection;
  rotate : call;
  overhead : N
}.

(** The surroundings of one search. *)
Record world := mkWorld {
  streamon : call;
  get_frame_read : call;
  setup : N;                    (* time taken before [start_time] is read *)
  ticks : nat -> tick
}.

(** The [for] loop of [_detect_aruco_markers] over the markers. Each
    iteration writes the position and the flag and then looks the id
    up. The boolean is [true] when the loop runs to its end, [false]
    when a lookup raises: the exception leaves the loop with the two
    fields of that marker already written. *)
Fixpoint record_markers (ms : list (lookup * point))
    (s : EnhancedSimulation) : bool * EnhancedSimulation * list event :=
  match ms with
  | [] => (true, s, [])
  | (marker_id, center) :: ms' =>
      let s1 := set_charging_spot_found true
                  (set_charging_spot_position (Some center) s) in
      match marker_id with
      | LookupRaises =>
          (false, s1, [Write ChargingSpotPosition; Write ChargingSpotFound])
      | Id _ =>
          let '(completed, s2, evs) := record_markers ms' s1 in
          (completed, s2,
           Write ChargingSpotPosition :: Write ChargingSpotFound :: evs)
      end
  end.

(** [_detect_aruco_markers]. With ids reported it returns [True] after
    the loop; an exception raised inside the loop is caught by the
    handler of the function, which returns [False] and leaves the
    fields as the loop wrote them. *)
Definition _detect_aruco_markers (s : EnhancedSimulation) (d : detection)
    : bool * EnhancedSimulation * list event :=
  match d with
  | Ids (Some ms) => record_markers ms s
  | Ids None => (false, s, [])
  | DetectRaises => (false, s, [])
  end.

(** [_approach_charging_spot]; the fourth component is the time spent
    sleeping. *)
Definition _approach_charging_spot (s : EnhancedSimulation) (t : tick)
    : bool * EnhancedSimulation * list event * Z :=
  let dist := approach_distance (aruco_config s) in
  let recheck (evs : list event) (slept : Z) :=
    match frame2 t with
    | Fetched (Some _) =>
        let '(ok, s', evs') := _detect_aruco_markers s (detect2 t) in
        (ok, s', evs ++ evs', slept)
    | Fetched None => (false, s, evs, slept)
    | FetchRaises => (false, s, evs, slept)
    end in
  if has_move_forward (tello s) then
    match move t with
    | Done => recheck [Command (MoveForward dist); Sleep 2000] 2000
    | Raises => (false, s, [Command (MoveForward dist)], 0)
    end
  else recheck [] 0.

(** One pass through the body of the [while] loop of
    [_search_charging_spot]: it either leaves the function with a
    result, or goes round again. [took] is the duration of the pass. *)
Inductive pass :=
| Exit (r : bool) (s : EnhancedSimulation) (took : Z) (evs : list event)
| Next (s : EnhancedSimulation) (took : Z) (evs : list event).

Definition turn (s : EnhancedSimulation) (t : tick) (took : Z)
    (evs : list event) : pass :=
  if has_rotate_clockwise (tello s) then
    match rotate t with
    | Done => Next s (took + 1000 + Z.of_N (overhead t))
                (evs ++ [Command (RotateClockwise 30); Sleep 1000])
    | Raises => Exit false s (took + Z.of_N (overhead t))
                  (evs ++ [Command (RotateClockwise 30)])
    end
  else Next s (took + 1000 + Z.of_N (overhead t)) (evs ++ [Sleep 1000]).

Definition loop_body (s : EnhancedSimulation) (t : tick) : pass :=
  match frame1 t with
  | FetchRaises => Exit false s (Z.of_N (overhead t)) []
  | Fetched None => Next s (100 + Z.of_N (overhead t)) [Sleep 100]
  | Fetched (Some _) =>
      let '(markers_found, s1, e1) := _detect_aruco_markers s (detect1 t) in
      if markers_found then
        let '(ok, s2, e2, slept) := _approach_charging_spot s1 t in
        if ok then Exit true s2 (slept + Z.of_N (overhead t)) (e1 ++ e2)
        else turn s2 t slept (e1 ++ e2)
      else turn s1 t 0 e1
  end.

(** ** The search *)

(** The account of one search: its result, the object afterwards, the
    clock when it returns, the events, the reading [start_time] and the
    duration of each pass of the loop, in order. *)
Record search := mkSearch {
  found : bool;
  after : EnhancedSimulation;
  clock : Z;
  events : list event;
  start_time : Z;
  laps : list Z
}.

Definition lap (d : Z) (evs : list event) (r : search) : search :=
  mkSearch (found r) (after r) (clock r) (evs ++ events r)
    (start_time r) (d :: laps r).

(** The [while time.time() - start_time < search_timeout] loop, at pass
    number [i] and clock [now]. It is defined by recursion on the time
    left: a pass that continues has advanced the clock. *)
Equations? search_loop (w : world) (start timeout : Z) (i : nat)
    (s : EnhancedSimulation) (now : Z) : search
    by wf (Z.to_nat (timeout - (now - start))) lt :=
  search_loop w start timeout i s now with Z_lt_dec (now - start) timeout := {
    | right _ => mkSearch false s now [] start [];
    | left Hlt with inspect (loop_body s (ticks w i)) := {
        | exist _ (Exit r s' d evs) _ =>
            mkSearch r s' (now + d) evs start [d];
        | exist _ (Next s' d evs) Hb =>
            lap d evs (search_loop w start timeout (S i) s' (now + d)) } }.
Proof.
  clear search_loop. revert Hb.
  cbv beta zeta delta
    [loop_body turn _approach_charging_spot _detect_aruco_markers].
  repeat case_innermost; intros Hb; inversion Hb; subst; lia.
Qed.

(** [_search_charging_spot]. A call that raises inside the [try] block
    ends the search with [False]. *)
Definition _search_charging_spot (w : world) (s : EnhancedSimulation)
    (now : Z) : search :=
  if negb (has_get_frame_read (tello s)) then
    mkSearch false s now [SearchStart] now []
  else
    let enable : call * list event :=
      if has_streamon (tello s) then (streamon w, [Command StreamOn])
      else (Done, []) in
    match fst enable with
    | Raises => mkSearch false s now (SearchStart :: snd enable) now []
    | Done =>
        match get_frame_read w with
        | Raises =>
            mkSearch false s now
              (SearchStart :: snd enable ++ [Command GetFrameRead]) now []
        | Done =>
            let start := now + Z.of_N (setup w) in
            let r := search_loop w start (search_timeout (aruco_config s))
                       0 s start in
            mkSearch (found r) (after r) (clock r)
              (SearchStart :: snd enable ++ [Command GetFrameRead]
                 ++ events r)
              (start_time r) (laps r)
        end
    end.

(** [manual_charging_search]. *)
Definition manual_charging_search (w : world) (s : EnhancedSimulation)
    (now : Z) : search :=
  _search_charging_spot w s now.

(** ** Processing a sample *)

(** What an operation without a result leaves behind. *)
Record effect := mkEffect {
  sim : EnhancedSimulation;
  time : Z;
  trace : list event
}.

(** [_handle_critical_battery]. *)
Definition _handle_critical_battery (w : world) (s : EnhancedSimulation)
    (now : Z) : effect :=
  let called : list event :=
    match charging_callback s with
    | Some _ => [ChargingCallback (last_battery_level s)]
    | None => []
    end in
  let r := _search_charging_spot w s now in
  mkEffect (after r) (clock r) (HandleCritical :: called ++ events r).

(** [_process_battery_level]; the whole body is inside
    [with self.lock]. *)
Definition _process_battery_level (w : world) (s : EnhancedSimulation)
    (battery_level : Z) (now : Z) : effect :=
  let s1 := set_last_battery_level battery_level s in
  let new := new_status (battery_config s1) battery_level in
  if negb (status_eqb new (current_battery_status s1)) then
    let s2 := set_current_battery_status new s1 in
    let called : list event :=
      match battery_callback s2 with
      | Some _ => [BatteryCallback battery_level new]
      | None => []
      end in
    let changed := [Acquire; Write LastBatteryLevel;
                    Write CurrentBatteryStatus] ++ called in
    if status_eqb new CRITICAL then
      let h := _handle_critical_battery w s2 now in
      mkEffect (sim h) (time h) (changed ++ trace h ++ [Release])
    else mkEffect s2 now (changed ++ [Release])
  else mkEffect s1 now [Acquire; Write LastBatteryLevel; Release].

(** What one round of the monitor loop meets: the answer of the drone
    to the battery query and the surroundings of a search, should one
    start. *)
Record cycle := mkCycle {
  reading : battery_read;
  around : world
}.

(** The body of the [while self.is_monitoring] loop of
    [_battery_monitor_loop]. [time.sleep] raises on a negative
    interval; the loop-level handler then sleeps one second. *)
Definition monitor_cycle (c : cycle) (s : EnhancedSimulation) (now : Z)
    : effect :=
  let e :=
    match _get_battery_level s (reading c) with
    | Some battery_level =>
        _process_battery_level (around c) s battery_level now
    | None => mkEffect s now []
    end in
  let pause := check_interval (battery_config (sim e)) in
  if 0 <=? pause then
    mkEffect (sim e) (time e + pause) (trace e ++ [Sleep pause])
  else mkEffect (sim e) (time e + 1000) (trace e ++ [Sleep 1000]).

(** [_battery_monitor_loop] over the rounds [cycles] met while the flag
    stays set. *)
Fixpoint _battery_monitor_loop (cycles : list cycle)
    (s : EnhancedSimulation) (now : Z) : effect :=
  match cycles with
  | [] => mkEffect s now []
  | c :: rest =>
      if is_monitoring s then
        let e := monitor_cycle c s now in
        let e' := _battery_monitor_loop rest (sim e) (time e) in
        mkEffect (sim e') (time e') (trace e ++ trace e')
      else mkEffect s now []
  end.

(** A valid sample handed to [_process_battery_level], with the
    surroundings of the search it may start. *)
Definition sample : Type := Z * world.

(** The samples [samples] processed one after the other. *)
Fixpoint process_all (samples : list sample) (s : EnhancedSimulation)
    (now : Z) : effect :=
  match samples with
  | [] => mkEffect s now []
  | (battery_level, w) :: rest =>
      let e := _process_battery_level w s battery_level now in
      let e' := process_all rest (sim e) (time e) in
      mkEffect (sim e') (time e') (trace e ++ trace e')
  end.

(** The status stored after each of the samples, in order. *)
Fixpoint observed (samples : list sample) (s : EnhancedSimulation)
    (now : Z) : list BatteryStatus :=
  match samples with
  | [] => []
  | (battery_level, w) :: rest =>
      let e := _process_battery_level w s battery_level now in
      current_battery_status (sim e) :: observed rest (sim e) (time e)
  end.

(** ** Status reports *)

Record Status := mkStatus {
  st_is_monitoring : bool;
  st_battery_level : Z;
  st_battery_status : string;
  st_charging_spot_found : bool;
  st_charging_spot_position : option point;
  st_warning_threshold : Z;
  st_critical_threshold : Z;
  st_charging_threshold : Z
}.

(** [get_status]. *)
Definition get_status (s : EnhancedSimulation) : Status * list event :=
  ({| st_is_monitoring := is_monitoring s;
      st_battery_level := last_battery_level s;
      st_battery_status := value (current_battery_status s);
      st_charging_spot_found := charging_spot_found s;
      st_charging_spot_position := charging_spot_position s;
      st_warning_threshold := warning_threshold (battery_config s);
      st_critical_threshold := critical_threshold (battery_config s);
      st_charging_threshold := charging_threshold (battery_config s) |},
   [Acquire; Release]).

Record BatteryInfo := mkBatteryInfo {
  current_level : Z;
  status : string;
  info_warning_threshold : Z;
  info_critical_threshold : Z;
  info_charging_threshold : Z;
  is_low : bool;
  is_critical : bool
}.

(** [get_battery_info]; [r] is the answer of the drone to the live
    read. *)
Definition get_battery_info (s : EnhancedSimulation) (r : battery_read)
    : BatteryInfo :=
  let battery_level :=
    match _get_battery_level s r with
    | Some b => b
    | None => last_battery_level s
    end in
  {| current_level := battery_level;
     status := value (current_battery_status s);
     info_warning_threshold := warning_threshold (battery_config s);
     info_critical_threshold := critical_threshold (battery_config s);
     info_charging_threshold := charging_threshold (battery_config s);
     is_low := battery_level <=? warning_threshold (battery_config s);
     is_critical := battery_level <=? critical_threshold (battery_config s) |}.

(** ** The object under its operations *)

Inductive operation :=
| SetCallbacks (b : option (Z -> BatteryStatus -> call))
    (c : option (Z -> call)) (g : option call)
| StartMonitoring
| StopMonitoring (alive : bool)
| MonitorCycle (c : cycle)
| ProcessBatteryLevel (battery_level : Z) (w : world)
| ManualChargingSearch (w : world)
| UpdateConfig (new_config : gmap string Z)
| ResetChargingSpotStatus
| GetStatus
| GetBatteryInfo (r : battery_read)
| Cleanup (alive : bool).

(** The object and the clock after one operation. *)
Definition perform (o : operation) (s : EnhancedSimulation) (now : Z)
    : EnhancedSimulation * Z :=
  match o with
  | SetCallbacks b c g => (set_callbacks b c g s, now)
  | StartMonitoring => (snd (fst (start_monitoring s)), now)
  | StopMonitoring alive => (snd (fst (stop_monitoring alive s)), now)
  | MonitorCycle c => let e := monitor_cycle c s now in (sim e, time e)
  | ProcessBatteryLevel l w =>
      let e := _process_battery_level w s l now in (sim e, time e)
  | ManualChargingSearch w =>
      let r := manual_charging_search w s now in (after r, clock r)
  | UpdateConfig c => (fst (update_config c s), now)
  | ResetChargingSpotStatus => (fst (reset_charging_spot_status s), now)
  | GetStatus => (s, now)
  | GetBatteryInfo _ => (s, now)
  | Cleanup alive => (snd (fst (cleanup alive s)), now)
  end.

Fixpoint perform_all (os : list operation) (s : EnhancedSimulation)
    (now : Z) : EnhancedSimulation * Z :=
  match os with
  | [] => (s, now)
  | o :: os' => let '(s', now') := perform o s now in perform_all os' s' now'
  end.

(** ** Vocabulary of the properties *)

(** The classification rule as the specification words it, over the
    three thresholds: most severe first. *)
Inductive classified (warning critical charging p : Z)
    : BatteryStatus -> Prop :=
| below_charging :
    p <= charging -> classified warning critical charging p CRITICAL
| below_critical :
    ~ p <= charging -> p <= critical ->
    classified warning critical charging p CRITICAL
| below_warning :
    ~ p <= charging -> ~ p <= critical -> p <= warning ->
    classified warning critical charging p WARNING
| above_warning :
    ~ p <= charging -> ~ p <= critical -> ~ p <= warning ->
    classified warning critical charging p NORMAL.

(** The ordering the specification asks of the thresholds. *)
Definition thresholds_ordered (c : BatteryConfig) : Prop :=
  0 <= charging_threshold c /\
  charging_threshold c < critical_threshold c /\
  critical_threshold c < warning_threshold c /\
  warning_threshold c <= 100.

Fixpoint count (p : event -> bool) (tr : list event) : nat :=
  match tr with
  | [] => 0%nat
  | e :: tr' => ((if p e then 1 else 0) + count p tr')%nat
  end.

Definition is_battery_callback (e : event) : bool :=
  match e with BatteryCallback _ _ => true | _ => false end.

Definition is_charging_callback (e : event) : bool :=
  match e with ChargingCallback _ => true | _ => false end.

Definition is_handle_critical (e : event) : bool :=
  match e with HandleCritical => true | _ => false end.

Definition is_search_start (e : event) : bool :=
  match e with SearchStart => true | _ => false end.

(** Number of changes of status along [sts], starting from [cur]. *)
Fixpoint transitions (cur : BatteryStatus) (sts : list BatteryStatus)
    : nat :=
  match sts with
  | [] => 0%nat
  | st :: rest =>
      ((if status_eqb st cur then 0 else 1) + transitions st rest)%nat
  end.

(** Number of changes of status into [CRITICAL] along [sts]. *)
Fixpoint critical_entries (cur : BatteryStatus)
    (sts : list BatteryStatus) : nat :=
  match sts with
  | [] => 0%nat
  | st :: rest =>
      ((if negb (status_eqb st cur) && status_eqb st CRITICAL
        then 1 else 0) + critical_entries st rest)%nat
  end.

Fixpoint total (ds : list Z) : Z :=
  match ds with
  | [] => 0
  | d :: ds' => d + total ds'
  end.

(** The lookup that ends the iteration of a marker completes. *)
Definition handled (m : lookup * point) : bool :=
  match fst m with Id _ => true | LookupRaises => false end.

(** The detector reports ids and every marker is handled to the end of
    its iteration: the run of [_detect_aruco_markers] ends in
    [return True]. *)
Definition reported (d : detection) : bool :=
  match d with
  | Ids (Some ms) => forallb handled ms
  | _ => false
  end.

(** The detector gives ids, whatever becomes of them afterwards. *)
Definition in_sight (d : detection) : bool :=
  match d with Ids (Some _) => true | _ => false end.

(** C7 as the specification words it: the detector reports a marker on
    the fetched frame and, after the move, reports one again on the
    frame fetched anew. *)
Definition marker_before_and_after (d : Tello) (t : tick) : bool :=
  match frame1 t with
  | Fetched (Some _) => in_sight (detect1 t)
  | _ => false
  end &&
  (negb (has_move_forward d) ||
   match move t with Done => true | Raises => false end) &&
  match frame2 t with
  | Fetched (Some _) => in_sight (detect2 t)
  | _ => false
  end.

(** A marker is reported on the frame fetched at the top of the pass:
    a frame is there and the detection on it returns [True]. *)
Definition sighted (t : tick) : bool :=
  match frame1 t with
  | Fetched (Some _) => reported (detect1 t)
  | _ => false
  end.

(** A marker is still reported after the forward move: the move, when
    the drone has one, completes, a frame is fetched again and the
    detection on it returns [True]. *)
Definition still_detected (d : Tello) (t : tick) : bool :=
  (negb (has_move_forward d) ||
   match move t with Done => true | Raises => false end) &&
  match frame2 t with
  | Fetched (Some _) => reported (detect2 t)
  | _ => false
  end.

(** The pass sees a marker and the approach confirms it. *)
Definition confirmed (d : Tello) (t : tick) : bool :=
  sighted t && still_detected d t.

(** The writes of [n] iterations of the loop over the markers. *)
Fixpoint marks (n : nat) : list event :=
  match n with
  | O => []
  | S n' => Write ChargingSpotPosition :: Write ChargingSpotFound :: marks n'
  end.

(** The number of iterations the loop over [ms] starts: all of them,
    or those up to the first lookup that raises, that one included. *)
Fixpoint iterations (ms : list (lookup * point)) : nat :=
  match ms with
  | [] => 0%nat
  | (Id _, _) :: ms' => S (iterations ms')
  | (LookupRaises, _) :: _ => 1%nat
  end.

(** The events and the duration of a pass. *)
Definition pass_events (p : pass) : list event :=
  match p with Exit _ _ _ evs | Next _ _ evs => evs end.

Definition pass_took (p : pass) : Z :=
  match p with Exit _ _ took _ | Next _ took _ => took end.

(** The events a pass of the search loop can perform. *)
Definition loop_event (e : event) : bool :=
  match e with
  | Write ChargingSpotFound | Write ChargingSpotPosition
  | Command _ | Sleep _ => true
  | _ => false
  end.

(** The statuses the monitor distinguishes. *)
Definition in_service (st : BatteryStatus) : Prop :=
  st = NORMAL \/ st = WARNING \/ st = CRITICAL.

(** The classification of the samples under the thresholds of [c]. *)
Definition classify_all (c : BatteryConfig) (samples : list sample)
    : list BatteryStatus :=
  map (fun x : sample => new_status c (fst x)) samples.

(** The thresholds of the scenario of the specification. *)
Definition scenario : gmap string Z :=
  {[ "warning_threshold" := 20; "critical_threshold" := 10;
     "charging_threshold" := 5 ]}.

Definition returns_boolean (r : retval) : Prop :=
  exists b : bool, r = PyBool b.

Definition is_status_write (e : event) : bool :=
  match e with
  | Write LastBatteryLevel | Write CurrentBatteryStatus
  | Write ChargingSpotFound | Write ChargingSpotPosition => true
  | _ => false
  end.

Definition is_callback (e : event) : bool :=
  match e with
  | BatteryCallback _ _ | ChargingCallback _ | StatusCallback => true
  | _ => false
  end.

(** The locking discipline as the specification words it, along a
    trace, [held] telling whether the guard is held at its start: a
    status field is written only with the guard held, a callback is
    invoked only with the guard released. *)
Fixpoint disciplined (held : bool) (tr : list event) : bool :=
  match tr with
  | [] => true
  | Acquire :: tr' => disciplined true tr'
  | Release :: tr' => disciplined false tr'
  | e :: tr' =>
      (if is_status_write e then held else true) &&
      (if is_callback e then negb held else true) &&
      disciplined held tr'
  end.

Definition is_write (e : event) : bool :=
  match e with Write _ => true | _ => false end.

Definition is_lock_event (e : event) : bool :=
  match e with Acquire | Release => true | _ => false end.

(** Along a trace, [held] telling whether the guard is held at its
    start: every write of a field, the configuration included, and
    every callback happens with the guard held; the guard, a plain
    [threading.Lock], is taken only when free and released only when
    held, and it is free when the trace ends. *)
Fixpoint guarded (held : bool) (tr : list event) : bool :=
  match tr with
  | [] => negb held
  | Acquire :: tr' => negb held && guarded true tr'
  | Release :: tr' => held && guarded false tr'
  | e :: tr' =>
      (if is_write e || is_callback e then held else true) &&
      guarded held tr'
  end.

(** The trace is not empty, its last event releases the guard and no
    event before it touches the guard. *)
Fixpoint released_at_end (tr : list event) : bool :=
  match tr with
  | [] => false
  | e :: tr' =>
      match tr' with
      | [] => match e with Release => true | _ => false end
      | _ :: _ => negb (is_lock_event e) && released_at_end tr'
      end
  end.

(** The keys [update_config] looks for, and whether the argument has
    one of them. *)
Definition recognised_keys : list string :=
  ["warning_threshold"; "critical_threshold"; "charging_threshold";
   "check_interval"].

Definition given (c : gmap string Z) (k : string) : bool :=
  match c !! k with Some _ => true | None => false end.

(** One [with self.lock] block and nothing else: the guard is taken at
    the first event, released at the last, and held in between. *)
Definition held_throughout (tr : list event) : bool :=
  match tr with
  | Acquire :: tr' => released_at_end tr'
  | _ => false
  end.

(** The two charging-spot fields set to [b] and [p]. *)
Definition spot (b : bool) (p : option point) (s : EnhancedSimulation) :=
  set_charging_spot_position p (set_charging_spot_found b s).

(** [s'] is [s] but for the charging-spot fields. *)
Definition only_spot (s s' : EnhancedSimulation) : Prop :=
  exists b p, s' = spot b p s.

(** ** Sample surroundings *)

Definition drone : Tello := mkTello true true true true true.

(** A pass in which the camera has no frame yet. *)
Definition blind : tick :=
  mkTick (Fetched None) DetectRaises Done (Fetched None) DetectRaises Done 0.

(** A pass in which a marker is seen before and after the move. *)
Definition seen : tick :=
  mkTick (Fetched (Some 0%nat)) (Ids (Some [(Id 7, (320, 240))])) Done
    (Fetched (Some 1%nat)) (Ids (Some [(Id 7, (322, 241))])) Done 0.

(** A pass in which the detector gives ids before and after the move,
    and the lookup of the id raises in the second detection. *)
Definition smudged : tick :=
  mkTick (Fetched (Some 0%nat)) (Ids (Some [(Id 7, (320, 240))])) Done
    (Fetched (Some 1%nat)) (Ids (Some [(LookupRaises, (322, 241))])) Done 0.

Definition dark : world := mkWorld Done Done 0 (fun _ => blind).
Definition garbled : world := mkWorld Done Done 0 (fun _ => smudged).
Definition lit : world := mkWorld Done Done 0 (fun _ => seen).

(** A marker comes into view at the third pass. *)
Definition dawn : world :=
  mkWorld Done Done 0 (fun i => if (i <? 2)%nat then blind else seen).

Definition watching (_ : Z) (_ : BatteryStatus) : call := Done.

(** ** Further vocabulary *)

(** The defaults written in the dataclasses [BatteryConfig] and
    [ArUcoConfig]. *)
Definition BatteryConfig_defaults : BatteryConfig :=
  {| warning_threshold := 20; critical_threshold := 10;
     charging_threshold := 5; check_interval := 5000 |}.

Definition ArUcoConfig_defaults : ArUcoConfig :=
  {| dictionary_type := DICT_4X4_50; marker_size := 50;
     search_timeout := 30000; approach_distance := 30 |}.

(** [get_default_config]. *)
Definition get_default_config : gmap string Z :=
  {[ "warning_threshold" := 20; "critical_threshold" := 10;
     "charging_threshold" := 5; "check_interval" := 5000;
     "aruco_dict" := DICT_4X4_50; "marker_size" := 50;
     "search_timeout" := 30000; "approach_distance" := 30 ]}.

(** [create_simulation_instance]. *)
Definition create_simulation_instance (tello_instance : Tello)
    (config : option (gmap string Z)) : EnhancedSimulation :=
  __init__ tello_instance config.

(** The samples the monitor loop hands to [_process_battery_level]:
    the rounds whose reading [_get_battery_level] accepts. *)
Fixpoint valid_samples (s : EnhancedSimulation) (cycles : list cycle)
    : list sample :=
  match cycles with
  | [] => []
  | c :: rest =>
      match _get_battery_level s (reading c) with
      | Some battery_level =>
          (battery_level, around c) :: valid_samples s rest
      | None => valid_samples s rest
      end
  end.

(** The flag and the position of the charging spot go together. *)
Definition spot_consistent (s : EnhancedSimulation) : Prop :=
  charging_spot_found s =
  match charging_spot_position s with Some _ => true | None => false end.

(** What a search may do, given the drone: write the two charging-spot
    fields, sleep 0.1, 1 or 2 seconds, and, when the drone has a
    camera, call the methods the drone has, rotating by 30 degrees and
    advancing by [approach_distance]. *)
Definition permitted (s : EnhancedSimulation) (e : event) : bool :=
  match e with
  | SearchStart => true
  | Write ChargingSpotFound | Write ChargingSpotPosition => true
  | Sleep ms => (ms =? 100) || (ms =? 1000) || (ms =? 2000)
  | Command c =>
      has_get_frame_read (tello s) &&
      match c with
      | StreamOn => has_streamon (tello s)
      | GetFrameRead => true
      | RotateClockwise degrees =>
          has_rotate_clockwise (tello s) && (degrees =? 30)
      | MoveForward distance =>
          has_move_forward (tello s) &&
          (distance =? approach_distance (aruco_config s))
      end
  | _ => false
  end.

Definition is_command (e : event) : bool :=
  match e with Command _ => true | _ => false end.

Definition is_rotate (e : event) : bool :=
  match e with Command (RotateClockwise _) => true | _ => false end.

Definition is_status_callback (e : event) : bool :=
  match e with StatusCallback => true | _ => false end.

(** A marker list with at least one marker is reported on the frame
    fetched at the top of the pass. *)
Definition marker_in_view (t : tick) : bool :=
  match frame1 t, detect1 t with
  | Fetched (Some _), Ids (Some (_ :: _)) => true
  | _, _ => false
  end.

(** The sum of the sleeps of a trace. *)
Fixpoint slept (tr : list event) : Z :=
  match tr with
  | [] => 0
  | Sleep ms :: tr' => ms + slept tr'
  | _ :: tr' => slept tr'
  end.

(** Thresholds 50 / 10 / 50: the charging threshold above the critical
    one. *)
Definition inverted : gmap string Z :=
  {[ "warning_threshold" := 50; "critical_threshold" := 10;
     "charging_threshold" := 50 ]}.

(** A marker is seen at every pass but lost after each move. *)
Definition glimpse : tick :=
  mkTick (Fetched (Some 0%nat)) (Ids (Some [(Id 7, (320, 240))])) Done
    (Fetched (Some 1%nat)) (Ids None) Done 0.

Definition fleeting : world := mkWorld Done Done 0 (fun _ => glimpse).

(** The stream cannot be switched on. *)
Definition jammed : world := mkWorld Raises Done 0 (fun _ => seen).

(** The object once monitoring has been started. *)
Definition started : EnhancedSimulation :=
  snd (fst (start_monitoring
              (set_callbacks (Some watching) None None
                 (__init__ drone None)))).

(** Rounds of the monitor loop: 18%, an out-of-range answer, a read that
    raises, 9% with a marker in sight, and no answer. *)
Definition rounds : list cycle :=
  [ mkCycle (ReadValue (Some 18)) dark;
    mkCycle (ReadValue (Some 150)) dark;
    mkCycle ReadRaises dark;
    mkCycle (ReadValue (Some 9)) lit;
    mkCycle (ReadValue None) dark ].


End Enhanced.

(* ===================================================================== *)
(** * The command executor *)
(* ===================================================================== *)

Module SimulationFacts.
Import Simulation.

Section Attempts.

Variable command_func : nat -> attempt.
Variable delay : Z.
Hypothesis delay_nonneg : 0 <= delay.


End Attempts.






(** * Further properties of the executor *)

Section Effort.

Variable command_func : nat -> attempt.
Variable delay : Z.
Hypothesis delay_nonneg : 0 <= delay.


End Effort.



Section BatteryAttempts.

Variable get : nat -> battery_attempt.
Variable delay : Z.
Hypothesis delay_nonneg : 0 <= delay.


End BatteryAttempts.




(** * [main] *)

Lemma bind_fst {A B : Type} (x : script A) (k : A -> script B) :
  fst (bind x k) =
  match fst x with
  | Value a => fst (k a)
  | Raise => Raise
  | Leave => Leave
  end.
Proof. destruct x as [[a| |] tr]; simpl; [by destruct (k a) | done..]. Qed.

Lemma bind_snd {A B : Type} (x : script A) (k : A -> script B) :
  snd (bind x k) =
  snd x ++ match fst x with
           | Value a => snd (k a)
           | _ => []
           end.
Proof.
  destruct x as [[a| |] tr]; simpl;
    [by destruct (k a) | by rewrite app_nil_r..].
Qed.

Lemma calls_app m tr tr' :
  calls m (tr ++ tr') = (calls m tr + calls m tr')%nat.
Proof.
  induction tr as [|[m'| | |] tr IH]; simpl; try assumption; [reflexivity|].
  destruct (method_eqb m m'); lia.
Qed.

Lemma shows_app tr tr' : shows (tr ++ tr') = (shows tr + shows tr')%nat.
Proof. induction tr as [|[]]; simpl; lia. Qed.

Lemma calls_replay m m' tr :
  calls m (replay m' tr) =
  if method_eqb m m' then invocations tr else 0%nat.
Proof.
  induction tr as [|[] tr IH]; simpl; try assumption;
    destruct (method_eqb m m'); simpl; congruence.
Qed.

Lemma shows_replay m tr : shows (replay m tr) = 0%nat.
Proof. induction tr as [|[]]; simpl; assumption || reflexivity. Qed.

Lemma attempts_invoked f d a n :
  (1 <= invocations (snd (attempts f d a (S n))) <= S n)%nat.
Proof.
  assert (H : forall m b,
    (invocations (snd (attempts f d b m)) <= m)%nat /\
    (m <> 0%nat -> 1 <= invocations (snd (attempts f d b m)))%nat).
  { induction m as [|m IH]; intros b; [by split|]. simpl.
    destruct (f b); simpl; try lia.
    destruct (d <? 0); simpl; [lia|].
    specialize (IH (S b)).
    destruct (attempts f d (S b) m). simpl in *. lia. }
  destruct (H (S n) a) as [H1 H2]. split; [apply H2; lia | exact H1].
Qed.

Lemma battery_attempts_invoked f d a n :
  (invocations (snd (battery_attempts f d a n)) <= n)%nat /\
  (n <> 0%nat -> 1 <= invocations (snd (battery_attempts f d a n)))%nat.
Proof.
  revert a. induction n as [|n IH]; intros a; [by split|]. simpl.
  destruct (f a); simpl; try lia.
  destruct (d <? 0); simpl; [lia|].
  specialize (IH (S a)).
  destruct (battery_attempts f d (S a) n). simpl in *. lia.
Qed.

Lemma tries_range ms st : (1 <= tries ms st <= 3)%nat.
Proof. apply (attempts_invoked (command ms st) 1000 1 2). Qed.

Lemma safe_fst ms st :
  fst (safe ms st) =
  match outcome ms st with
  | Returns b => Value b
  | Propagates => Raise
  end.
Proof.
  unfold safe, outcome. by destruct (safe_command (command ms st) 3 1000).
Qed.

Lemma safe_calls ms st m :
  calls m (snd (safe ms st)) =
  if method_eqb m (method_of st) then tries ms st else 0%nat.
Proof.
  unfold safe, tries. destruct (safe_command (command ms st) 3 1000).
  simpl. apply calls_replay.
Qed.

Lemma safe_shows ms st : shows (snd (safe ms st)) = 0%nat.
Proof.
  unfold safe. destruct (safe_command (command ms st) 3 1000).
  simpl. apply shows_replay.
Qed.

Lemma battery_fst get :
  fst (battery get) =
  match fst (get_battery_level get 3 1000) with
  | Read b => Value b
  | ReadPropagates => Raise
  end.
Proof. unfold battery. by destruct (get_battery_level get 3 1000). Qed.

Lemma battery_calls get m :
  calls m (snd (battery get)) =
  if method_eqb m get_battery
  then invocations (snd (get_battery_level get 3 1000)) else 0%nat.
Proof.
  unfold battery. destruct (get_battery_level get 3 1000).
  simpl. apply calls_replay.
Qed.

Lemma battery_shows get : shows (snd (battery get)) = 0%nat.
Proof.
  unfold battery. destruct (get_battery_level get 3 1000).
  simpl. apply shows_replay.
Qed.


(** Case analysis on a scrutinee of the goal that has no case analysis
    inside it. *)
Ltac case_first :=
  match goal with
  | |- context [match ?x with _ => _ end] =>
      lazymatch x with
      | context [match _ with _ => _ end] => fail
      | _ => destruct x eqn:?
      end
  end.

(** Unfolding of the steps of a script, one [bind] at a time. *)
Ltac unbind :=
  repeat (progress
    (rewrite ?bind_fst, ?bind_snd, ?safe_fst, ?battery_fst, ?calls_app,
       ?shows_app, ?safe_calls, ?battery_calls, ?safe_shows, ?battery_shows;
     cbn [fst snd call_direct pause pure leave close_windows calls shows
          method_eqb method_of app negb Nat.add])).

Section MarkerLoop.

Variable ms : mission.

Lemma marker_loop_summary (m : method) (remaining a : nat) :
  let x := marker_loop ms remaining a in
  fst x <> Leave /\
  (shows (snd x) <= remaining)%nat /\
  (calls m (snd x) <=
   match m with
   | rotate_clockwise _ => 3 * remaining
   | move_forward _ | land => 3
   | _ => 0
   end)%nat /\
  (fst x = Value false -> calls (move_forward 30) (snd x) = 0%nat) /\
  (fst x = Value true ->
   (1 <= calls land (snd x))%nat \/
   exists k : nat, (a <= k < a + remaining)%nat /\ approach_fails ms k).
Proof.
  cbv zeta. revert a. induction remaining as [|n IH]; intros a.
  - simpl. repeat split; try discriminate; destruct m; lia.
  - destruct (IH (S a)) as (IHl & IHs & IHc & IHf & IHt). clear IH.
    pose proof (tries_range ms (ManualLanding a)).
    pose proof (tries_range ms (MoveForward a)).
    pose proof (tries_range ms (LandingOnMarker a)).
    pose proof (tries_range ms (RotateClockwise a)).
    assert (fst (marker_loop ms n (S a)) = Value true ->
            (1 <= calls land (snd (marker_loop ms n (S a))))%nat \/
            exists k : nat, (a <= k < a + S n)%nat /\ approach_fails ms k)
      as IHt'.
    { intros H'. destruct (IHt H') as [Hl | (k & Hk & Hfail)];
        [by left | right; exists k; split; [lia | exact Hfail]]. }
    assert (approach_fails ms a ->
            exists k : nat, (a <= k < a + S n)%nat /\ approach_fails ms k)
      as Hhere by (intros Hf; exists a; split; [lia | exact Hf]).
    unfold approach_fails in Hhere.
    cbn [marker_loop]. cbv zeta.
    destruct (has_frame (views ms a)) eqn:Hframe; cbn [negb]; unbind;
      [|repeat split; first [assumption | destruct m; simpl in *; lia]].
    destruct (vision (views ms a)) eqn:Hvision; unbind;
      [|repeat split; first [discriminate | destruct m; simpl in *; lia]].
    destruct (key_q (views ms a)) eqn:Hq; unbind.
    { destruct (outcome ms (ManualLanding a)); unbind;
        repeat split;
        first [ discriminate
              | destruct m; simpl in *; try destruct (_ =? _); lia ]. }
    destruct (ids (views ms a)) eqn:Hids; unbind.
    { destruct (outcome ms (MoveForward a)) as [[|]|] eqn:Hmv; unbind;
        [destruct (outcome ms (LandingOnMarker a)); unbind| |];
        repeat split;
        first [ discriminate
              | intros _; left; simpl; lia
              | intros _; right; apply Hhere; by repeat split
              | destruct m; simpl in *; try destruct (_ =? _); lia ]. }
    destruct (outcome ms (RotateClockwise a)); unbind;
      repeat split;
      first [ discriminate
            | assumption
            | intros H'; rewrite (IHf H'); simpl; lia
            | intros H'; destruct (IHt' H') as [Hl | Hk];
              [left; simpl; lia | by right]
            | destruct m; simpl in *; try destruct (_ =? _); lia ].
Qed.

End MarkerLoop.


Lemma reads_range get :
  (1 <= invocations (snd (get_battery_level get 3 1000)) <= 3)%nat.
Proof.
  unfold get_battery_level.
  destruct (battery_attempts_invoked get 1000 1 (Z.to_nat 3)) as [H H'].
  specialize (H' ltac:(discriminate)). change (Z.to_nat 3) with 3%nat in *.
  lia.
Qed.

(** [main] as its body followed, when the body raises, by the
    handler. *)
Lemma main_unfold ms :
  create ms = Succeeds ->
  main ms =
  (match fst (mission_body ms) with
   | Raise =>
       match fst (handler ms) with Raise => Escaped | _ => Completed end
   | _ => Completed
   end,
   snd (mission_body ms) ++
   match fst (mission_body ms) with
   | Raise => snd (handler ms)
   | _ => []
   end).
Proof.
  intros H. unfold main. rewrite H.
  destruct (mission_body ms) as [[[]| |] tr]; simpl;
    [by rewrite app_nil_r | by destruct (handler ms) | by rewrite app_nil_r].
Qed.

Ltac walk_with rw :=
  repeat first
    [ progress (unbind; cbn [Z.eqb Pos.eqb]; rw)
    | case_first ].

Ltac walk := walk_with idtac.

Ltac settle_bools :=
  repeat match goal with
         | b : bool |- _ => destruct b; try discriminate
         end.

Section Mission.

Variable ms : mission.

(** The cleanup calls [streamoff] and [end] and nothing else. *)
Lemma wrap_up_summary :
  fst (wrap_up ms) <> Leave /\
  shows (snd (wrap_up ms)) = 0%nat /\
  forall m : method,
    match m with
    | streamoff | end_ => True
    | _ => calls m (snd (wrap_up ms)) = 0%nat
    end.
Proof.
  unfold wrap_up. split; [|split].
  - walk; discriminate.
  - walk; reflexivity.
  - intros m. destruct m; try exact I; walk; reflexivity.
Qed.

(** The handler commands a landing, and neither a take-off, a rotation
    nor an advance. *)
Lemma handler_summary :
  shows (snd (handler ms)) = 0%nat /\
  (1 <= calls land (snd (handler ms)) <= 3)%nat /\
  forall m : method,
    match m with
    | land | streamoff | end_ => True
    | _ => calls m (snd (handler ms)) = 0%nat
    end.
Proof.
  pose proof (tries_range ms HandlerLanding).
  unfold handler. split; [|split].
  - walk; reflexivity.
  - walk; lia.
  - intros m. destruct m; try exact I; walk; reflexivity.
Qed.

(** What follows the take-off: no second take-off, at most 3 advances,
    36 rotations, 6 landings and 12 frames shown; and a landing is
    commanded unless an exception is on its way to the handler or an
    advance towards a marker failed. *)
Lemma flight_summary :
  let tr := snd (flight ms) in
  calls takeoff tr = 0%nat /\
  (calls (move_forward 30) tr <= 3)%nat /\
  (calls (rotate_clockwise 30) tr <= 36)%nat /\
  (calls land tr <= 6)%nat /\
  (shows tr <= 12)%nat /\
  (fst (flight ms) = Raise \/ (1 <= calls land tr)%nat \/
   exists k : nat, (k < 12)%nat /\ approach_fails ms k).
Proof.
  cbv zeta.
  pose proof (tries_range ms EmergencyLanding).
  pose proof (tries_range ms Landing).
  pose proof (tries_range ms FallbackLanding).
  destruct wrap_up_summary as (Hwl & Hws & Hw).
  pose proof (Hw takeoff) as Hw1. pose proof (Hw (move_forward 30)) as Hw2.
  pose proof (Hw (rotate_clockwise 30)) as Hw3. pose proof (Hw land) as Hw4.
  cbn in Hw1, Hw2, Hw3, Hw4. clear Hw.
  destruct (marker_loop_summary ms takeoff 12 0) as (_ & Hs & Ht & _).
  destruct (marker_loop_summary ms (move_forward 30) 12 0) as (_ & _ & Hm & _).
  destruct (marker_loop_summary ms (rotate_clockwise 30) 12 0)
    as (_ & _ & Hr & _).
  destruct (marker_loop_summary ms land 12 0) as (Hnl & _ & Hd & _ & Hl).
  unfold flight.
  split; [walk; lia|]. split; [walk; lia|]. split; [walk; lia|].
  split; [walk; lia|]. split; [walk; lia|].
  walk; settle_bools;
    first
      [ congruence
      | by left
      | right; left; lia
      | right; destruct Hl as [? | (k & ? & ?)];
        [congruence | left; lia
        | right; exists k; split; [lia | assumption]] ].
Qed.

End Mission.

(** The facts about the calls of [main] that its proofs draw on. *)
Ltac mission_facts ms :=
  pose proof (tries_range ms StartVideoStream);
  pose proof (tries_range ms Takeoff);
  pose proof (reads_range (battery_before ms));
  let Hf := fresh "Hflight" in
  let Hh := fresh "Hhandler" in
  pose proof (flight_summary ms) as Hf; cbv zeta in Hf;
  pose proof (handler_summary ms) as Hh.

(** X19. Whatever the drone, the camera and the keyboard do, one run of
    [main] commands at most 3 take-offs, 3 advances, 36 rotations and
    9 landings, and shows at most 12 frames: the marker loop makes at
    most 12 passes. *)
Theorem main_command_budget (ms : mission) :
  let tr := snd (main ms) in
  (calls takeoff tr <= 3)%nat /\
  (calls (move_forward 30) tr <= 3)%nat /\
  (calls (rotate_clockwise 30) tr <= 36)%nat /\
  (calls land tr <= 9)%nat /\
  (shows tr <= 12)%nat.
Proof.
  cbv zeta. destruct (create ms) eqn:Hc; [|unfold main; rewrite Hc; simpl; lia].
  rewrite (main_unfold ms Hc). cbn [snd].
  mission_facts ms.
  destruct Hflight as (Hf1 & Hf2 & Hf3 & Hf4 & Hf5 & _).
  destruct Hhandler as (Hh1 & Hh2 & Hh).
  pose proof (Hh takeoff) as Hh3. pose proof (Hh (move_forward 30)) as Hh4.
  pose proof (Hh (rotate_clockwise 30)) as Hh5. cbn in Hh3, Hh4, Hh5.
  unfold mission_body.
  repeat split; walk; lia.
Qed.

(** X20. [main] commands a take-off only after the drone was created
    and connected, a battery level was read, the video stream was
    switched on and the frame reader obtained. *)
Theorem takeoff_needs_battery_and_stream (ms : mission) :
  (1 <= calls takeoff (snd (main ms)))%nat ->
  create ms = Succeeds /\ connecting ms = Succeeds /\
  (exists b, fst (get_battery_level (battery_before ms) 3 1000)
             = Read (Some b)) /\
  outcome ms StartVideoStream = Returns true /\
  frame_reading ms = Succeeds.
Proof.
  destruct (create ms) eqn:Hc;
    [|unfold main; rewrite Hc; simpl; lia].
  rewrite (main_unfold ms Hc). cbn [snd].
  destruct (flight_summary ms) as (Hf & _).
  destruct (handler_summary ms) as (_ & _ & Hh).
  specialize (Hh takeoff). cbn in Hh.
  unfold mission_body.
  walk; intros Hcalls; try (simpl in Hcalls; lia);
    settle_bools; subst; repeat split; eauto.
Qed.

Lemma takeoff_needs_battery_and_stream_witness :
  create stuck = Succeeds /\ connecting stuck = Succeeds /\
  (exists b, fst (get_battery_level (battery_before stuck) 3 1000)
             = Read (Some b)) /\
  outcome stuck StartVideoStream = Returns true /\
  frame_reading stuck = Succeeds.
Proof.
  apply (takeoff_needs_battery_and_stream stuck).
  vm_compute. lia.
Defined.

(** X21. Once the take-off command has completed, every run of [main]
    commands a landing, with one exception: when a marker is seen and
    the advance towards it fails, the loop ends without a landing
    command. *)
Theorem landing_after_takeoff (ms : mission) :
  airborne ms ->
  (1 <= calls land (snd (main ms)))%nat \/
  exists k : nat, (k < 12)%nat /\ approach_fails ms k.
Proof.
  intros (Hc & Hconn & [b0 Hb] & Hstream & Hframe & Htake).
  rewrite (main_unfold ms Hc). cbn [snd].
  destruct (flight_summary ms) as (_ & _ & _ & _ & _ & Hf).
  destruct (handler_summary ms) as (_ & Hh & _).
  unfold mission_body.
  walk_with ltac:(rewrite ?Hconn, ?Hb, ?Hstream, ?Hframe, ?Htake);
    first
      [ left; lia
      | destruct Hf as [Hf | [Hf | Hf]];
        [congruence | left; lia | by right] ].
Qed.

Lemma landing_after_takeoff_witness :
  (1 <= calls land (snd (main barren)))%nat \/
  exists k : nat, (k < 12)%nat /\ approach_fails barren k.
Proof.
  apply (landing_after_takeoff barren).
  unfold airborne. repeat split; try reflexivity. by exists 30.
Defined.

(** The exception happens: the drone takes off, sees a marker, fails to
    advance, and [main] returns without having commanded a landing. *)
Example takeoff_without_landing :
  airborne stuck /\ fst (main stuck) = Completed /\
  calls land (snd (main stuck)) = 0%nat /\ approach_fails stuck 0.
Proof.
  unfold airborne, approach_fails.
  repeat split; try reflexivity. by exists 30.
Qed.

(** X22. When no battery level can be read, the stream cannot be
    switched on, or the take-off fails, [main] returns at once: it
    commands no landing, does not switch the stream off and does not
    end the connection. *)
Theorem failed_start_skips_cleanup (ms : mission) :
  create ms = Succeeds -> connecting ms = Succeeds ->
  fst (get_battery_level (battery_before ms) 3 1000) = Read None \/
  (exists b, fst (get_battery_level (battery_before ms) 3 1000)
             = Read (Some b)) /\
  (outcome ms StartVideoStream = Returns false \/
   outcome ms StartVideoStream = Returns true /\
   frame_reading ms = Succeeds /\
   outcome ms Takeoff = Returns false) ->
  let tr := snd (main ms) in
  fst (main ms) = Completed /\
  calls land tr = 0%nat /\ calls streamoff tr = 0%nat /\
  calls end_ tr = 0%nat.
Proof.
  intros Hc Hconn H. cbv zeta. rewrite (main_unfold ms Hc). cbn [fst snd].
  unfold mission_body.
  destruct H as [Hb | [[b0 Hb] [Hs | (Hs & Hf & Ht)]]].
  - repeat split;
      walk_with ltac:(rewrite ?Hconn, ?Hb); reflexivity.
  - repeat split;
      walk_with ltac:(rewrite ?Hconn, ?Hb, ?Hs); reflexivity.
  - repeat split;
      walk_with ltac:(rewrite ?Hconn, ?Hb, ?Hs, ?Hf, ?Ht); reflexivity.
Qed.

Lemma failed_start_skips_cleanup_witness :
  let tr := snd (main grounded) in
  fst (main grounded) = Completed /\
  calls land tr = 0%nat /\ calls streamoff tr = 0%nat /\
  calls end_ tr = 0%nat.
Proof.
  apply (failed_start_skips_cleanup grounded); try reflexivity.
  right. split; [by exists 80|]. right. by repeat split.
Defined.

(** X23. With a battery at 45% or more after take-off, [main] lands
    without looking for a marker: it shows no frame and commands
    neither a rotation nor an advance. With no readable level after
    take-off it commands a landing and returns, leaving the stream on
    and the connection open. *)
Theorem no_search_on_good_or_unknown_battery (ms : mission) :
  airborne ms ->
  let tr := snd (main ms) in
  (forall b : Z,
      fst (get_battery_level (battery_after ms) 3 1000) = Read (Some b) ->
      45 <= b ->
      shows tr = 0%nat /\ calls (rotate_clockwise 30) tr = 0%nat /\
      calls (move_forward 30) tr = 0%nat /\ (1 <= calls land tr)%nat) /\
  (fst (get_battery_level (battery_after ms) 3 1000) = Read None ->
   outcome ms EmergencyLanding <> Propagates ->
   shows tr = 0%nat /\ calls land tr = tries ms EmergencyLanding /\
   calls streamoff tr = 0%nat /\ calls end_ tr = 0%nat).
Proof.
  intros (Hc & Hconn & [b0 Hb] & Hstream & Hframe & Htake). cbv zeta.
  rewrite (main_unfold ms Hc). cbn [snd].
  pose proof (tries_range ms Landing).
  pose proof (tries_range ms EmergencyLanding).
  destruct (handler_summary ms) as (Hh1 & Hh2 & Hh).
  pose proof (Hh (move_forward 30)) as Hh4.
  pose proof (Hh (rotate_clockwise 30)) as Hh5. cbn in Hh4, Hh5.
  unfold mission_body, flight, wrap_up. split.
  - intros b Hafter Hb45. apply Z.leb_le in Hb45.
    repeat split;
      walk_with ltac:(rewrite ?Hconn, ?Hb, ?Hstream, ?Hframe, ?Htake,
                        ?Hafter, ?Hb45);
      lia.
  - intros Hafter Hland.
    repeat split;
      walk_with ltac:(rewrite ?Hconn, ?Hb, ?Hstream, ?Hframe, ?Htake,
                        ?Hafter);
      first [lia | congruence].
Qed.

Lemma no_search_on_good_or_unknown_battery_witness :
  shows (snd (main fit)) = 0%nat /\
  calls (rotate_clockwise 30) (snd (main fit)) = 0%nat /\
  calls (move_forward 30) (snd (main fit)) = 0%nat /\
  (1 <= calls land (snd (main fit)))%nat.
Proof.
  assert (airborne fit) as H
    by (unfold airborne; repeat split; try reflexivity; by exists 80).
  apply (proj1 (no_search_on_good_or_unknown_battery fit H) 80).
  - reflexivity.
  - lia.
Defined.

End SimulationFacts.

(* ===================================================================== *)
(** * The battery monitor and the charging-spot search *)
(* ===================================================================== *)

Module EnhancedFacts.
Import Enhanced.

(** ** What a search leaves alone *)

Lemma only_spot_refl s : only_spot s s.
Proof. exists (charging_spot_found s), (charging_spot_position s). by destruct s. Qed.

Lemma only_spot_trans s1 s2 s3 :
  only_spot s1 s2 -> only_spot s2 s3 -> only_spot s1 s3.
Proof. intros (b & p & ->) (b' & p' & ->). by exists b', p'. Qed.

Lemma only_spot_set s b p : only_spot s (spot b p s).
Proof. by exists b, p. Qed.

Create HintDb spot.
#[local] Hint Resolve only_spot_refl only_spot_set : spot.

Lemma only_spot_tello s s' : only_spot s s' -> tello s' = tello s.
Proof. by intros (b & p & ->). Qed.

Lemma only_spot_status s s' :
  only_spot s s' -> current_battery_status s' = current_battery_status s.
Proof. by intros (b & p & ->). Qed.

Lemma only_spot_battery_config s s' :
  only_spot s s' -> battery_config s' = battery_config s.
Proof. by intros (b & p & ->). Qed.

Lemma only_spot_level s s' :
  only_spot s s' -> last_battery_level s' = last_battery_level s.
Proof. by intros (b & p & ->). Qed.

Lemma only_spot_battery_callback s s' :
  only_spot s s' -> battery_callback s' = battery_callback s.
Proof. by intros (b & p & ->). Qed.

Lemma record_markers_only_spot ms s :
  only_spot s (snd (fst (record_markers ms s))).
Proof.
  revert s. induction ms as [|[[id|] c] ms IH]; intros s; simpl.
  - apply only_spot_refl.
  - specialize (IH (set_charging_spot_found true
                      (set_charging_spot_position (Some c) s))).
    destruct (record_markers ms _) as [[completed s2] evs]. simpl in *.
    eapply only_spot_trans; [|exact IH].
    exists true, (Some c). by destruct s.
  - exists true, (Some c). by destruct s.
Qed.

Lemma detect_only_spot s d :
  only_spot s (snd (fst (_detect_aruco_markers s d))).
Proof.
  destruct d as [|[ms|]]; simpl; auto with spot.
  apply record_markers_only_spot.
Qed.

Lemma approach_only_spot s t :
  only_spot s (snd (fst (fst (_approach_charging_spot s t)))).
Proof.
  unfold _approach_charging_spot.
  pose proof (detect_only_spot s (detect2 t)) as H.
  destruct (_detect_aruco_markers s (detect2 t)) as [[ok s'] evs].
  destruct (has_move_forward (tello s)), (move t), (frame2 t) as [|[f|]];
    simpl in *; auto with spot.
Qed.

Lemma turn_only_spot s t took evs :
  match turn s t took evs with
  | Exit _ s' _ _ | Next s' _ _ => s' = s
  end.
Proof.
  unfold turn.
  by destruct (has_rotate_clockwise (tello s)), (rotate t).
Qed.

Lemma loop_body_only_spot s t :
  match loop_body s t with
  | Exit _ s' _ _ | Next s' _ _ => only_spot s s'
  end.
Proof.
  unfold loop_body.
  destruct (frame1 t) as [|[f|]]; auto with spot.
  pose proof (detect_only_spot s (detect1 t)) as H1.
  destruct (_detect_aruco_markers s (detect1 t)) as [[markers s1] e1].
  simpl in H1. destruct markers.
  - pose proof (approach_only_spot s1 t) as H2.
    destruct (_approach_charging_spot s1 t) as [[[ok s2] e2] slept].
    simpl in H2. destruct ok.
    + eapply only_spot_trans; eassumption.
    + pose proof (turn_only_spot s2 t slept (e1 ++ e2)) as H3.
      destruct (turn s2 t slept (e1 ++ e2)); subst;
        eapply only_spot_trans; eassumption.
  - pose proof (turn_only_spot s1 t 0 e1) as H3.
    destruct (turn s1 t 0 e1); subst; assumption.
Qed.

(** ** The verdict and the events of one pass *)

Lemma record_markers_result ms s :
  fst (fst (record_markers ms s)) = forallb handled ms.
Proof.
  revert s. induction ms as [|[[id|] c] ms IH]; intros s; simpl;
    try reflexivity.
  specialize (IH (set_charging_spot_found true
                    (set_charging_spot_position (Some c) s))).
  by destruct (record_markers ms _) as [[completed s2] evs].
Qed.

Lemma detect_result s d :
  fst (fst (_detect_aruco_markers s d)) = reported d.
Proof.
  destruct d as [|[ms|]]; try reflexivity.
  apply record_markers_result.
Qed.

Lemma approach_result s t :
  fst (fst (fst (_approach_charging_spot s t))) = still_detected (tello s) t.
Proof.
  unfold _approach_charging_spot, still_detected.
  pose proof (detect_result s (detect2 t)) as H.
  destruct (_detect_aruco_markers s (detect2 t)) as [[ok s'] evs].
  simpl in H. subst ok.
  by destruct (has_move_forward (tello s)), (move t), (frame2 t) as [|[f|]].
Qed.

Lemma turn_verdict s t took evs :
  match turn s t took evs with
  | Exit r _ _ _ => r = false
  | Next _ _ _ => True
  end.
Proof.
  unfold turn. by destruct (has_rotate_clockwise (tello s)), (rotate t).
Qed.

Lemma loop_body_confirmed s t :
  match loop_body s t with
  | Exit r _ _ _ => r = confirmed (tello s) t
  | Next _ _ _ => confirmed (tello s) t = false
  end.
Proof.
  unfold loop_body, confirmed, sighted.
  destruct (frame1 t) as [|[f|]]; try reflexivity.
  pose proof (detect_result s (detect1 t)) as H1.
  pose proof (detect_only_spot s (detect1 t)) as Hs.
  destruct (_detect_aruco_markers s (detect1 t)) as [[markers s1] e1].
  simpl in H1, Hs. apply only_spot_tello in Hs. rewrite <- H1.
  clear H1. destruct markers.
  - pose proof (approach_result s1 t) as H2.
    destruct (_approach_charging_spot s1 t) as [[[ok s2] e2] slept].
    simpl in H2. rewrite Hs in H2. subst ok.
    destruct (still_detected (tello s) t); [reflexivity|].
    pose proof (turn_verdict s2 t slept (e1 ++ e2)) as H.
    by destruct (turn s2 t slept (e1 ++ e2)).
  - pose proof (turn_verdict s1 t 0 e1) as H. by destruct (turn s1 t 0 e1).
Qed.

Lemma record_markers_marks ms s :
  snd (record_markers ms s) = marks (iterations ms).
Proof.
  revert s. induction ms as [|[[id|] c] ms IH]; intros s; simpl;
    try reflexivity.
  specialize (IH (set_charging_spot_found true
                    (set_charging_spot_position (Some c) s))).
  destruct (record_markers ms _) as [[completed s2] evs]. simpl in *.
  by rewrite IH.
Qed.

Lemma record_markers_events ms s :
  Forall (fun e => loop_event e = true) (snd (record_markers ms s)).
Proof.
  revert s. induction ms as [|[[id|] c] ms IH]; intros s; simpl.
  - constructor.
  - specialize (IH (set_charging_spot_found true
                      (set_charging_spot_position (Some c) s))).
    destruct (record_markers ms _) as [[completed s2] evs]. simpl in *.
    by repeat constructor.
  - by repeat constructor.
Qed.

Lemma detect_events s d :
  Forall (fun e => loop_event e = true) (snd (_detect_aruco_markers s d)).
Proof.
  destruct d as [|[ms|]]; simpl; try constructor.
  apply record_markers_events.
Qed.

Lemma approach_events s t :
  Forall (fun e => loop_event e = true)
    (snd (fst (_approach_charging_spot s t))).
Proof.
  unfold _approach_charging_spot.
  pose proof (detect_events s (detect2 t)) as H.
  destruct (_detect_aruco_markers s (detect2 t)) as [[ok s'] evs].
  simpl in H.
  destruct (has_move_forward (tello s)), (move t), (frame2 t) as [|[f|]];
    simpl; repeat constructor; assumption.
Qed.

Lemma turn_events s t took evs :
  Forall (fun e => loop_event e = true) evs ->
  match turn s t took evs with
  | Exit _ _ _ evs' | Next _ _ evs' =>
      Forall (fun e => loop_event e = true) evs'
  end.
Proof.
  intros H. unfold turn.
  destruct (has_rotate_clockwise (tello s)), (rotate t);
    apply Forall_app; split; try assumption; by repeat constructor.
Qed.

Lemma loop_body_events s t :
  match loop_body s t with
  | Exit _ _ _ evs | Next _ _ evs =>
      Forall (fun e => loop_event e = true) evs
  end.
Proof.
  unfold loop_body.
  destruct (frame1 t) as [|[f|]]; [constructor| |by repeat constructor].
  pose proof (detect_events s (detect1 t)) as H1.
  destruct (_detect_aruco_markers s (detect1 t)) as [[markers s1] e1].
  simpl in H1. destruct markers.
  - pose proof (approach_events s1 t) as H2.
    destruct (_approach_charging_spot s1 t) as [[[ok s2] e2] slept].
    simpl in H2.
    assert (Forall (fun e => loop_event e = true) (e1 ++ e2)) as H
      by (apply Forall_app; by split).
    destruct ok; [assumption | by apply turn_events].
  - by apply turn_events.
Qed.

Section SearchLoop.

Variable w : world.
Variables start timeout : Z.

(** Induction following the passes of the search loop. *)
Lemma search_loop_passes
    (P : nat -> EnhancedSimulation -> Z -> search -> Prop) :
  (forall i s now,
      ~ now - start < timeout ->
      P i s now (mkSearch false s now [] start [])) ->
  (forall i s now r s' d evs,
      now - start < timeout ->
      loop_body s (ticks w i) = Exit r s' d evs ->
      P i s now (mkSearch r s' (now + d) evs start [d])) ->
  (forall i s now s' d evs,
      now - start < timeout ->
      loop_body s (ticks w i) = Next s' d evs ->
      P (S i) s' (now + d) (search_loop w start timeout (S i) s' (now + d)) ->
      P i s now
        (lap d evs (search_loop w start timeout (S i) s' (now + d)))) ->
  forall i s now, P i s now (search_loop w start timeout i s now).
Proof.
  intros Hstop Hexit Hnext i s now.
  funelim (search_loop w start timeout i s now).
  - by apply Hstop.
  - by apply Hexit.
  - apply Hnext; [assumption..|]. by apply H.
Qed.

Lemma search_loop_only_spot i s now :
  only_spot s (after (search_loop w start timeout i s now)).
Proof.
  apply (search_loop_passes (fun _ s _ r => only_spot s (after r)));
    clear i s now.
  - intros; apply only_spot_refl.
  - intros i s now r s' d evs _ Hb.
    pose proof (loop_body_only_spot s (ticks w i)) as H.
    by rewrite Hb in H.
  - intros i s now s' d evs _ Hb IH.
    pose proof (loop_body_only_spot s (ticks w i)) as H.
    rewrite Hb in H. eapply only_spot_trans; eassumption.
Qed.

(** The clock of the loop: it returns at [now] plus its laps, and all
    laps but the last started before the timeout. *)
Lemma search_loop_clock i s now :
  let r := search_loop w start timeout i s now in
  start_time r = start /\
  clock r = now + total (laps r) /\
  (laps r = [] \/
   exists ds d, laps r = ds ++ [d] /\ now - start + total ds < timeout).
Proof.
  apply (search_loop_passes (fun _ _ now r =>
    start_time r = start /\
    clock r = now + total (laps r) /\
    (laps r = [] \/
     exists ds d, laps r = ds ++ [d] /\ now - start + total ds < timeout)));
    clear i s now; simpl.
  - intros _ s now _. repeat split; [lia | by left].
  - intros _ s now r s' d evs Hlt _. repeat split; [lia|].
    right. exists [], d. split; [reflexivity | simpl; lia].
  - intros i s now s' d evs Hlt _ (Hs & Hc & Hl).
    repeat split; [assumption | lia |].
    right. destruct Hl as [-> | (ds & d' & -> & Hds)].
    + exists [], d. split; [reflexivity | simpl; lia].
    + exists (d :: ds), d'. split; [reflexivity | simpl; lia].
Qed.


(** The result of the loop is the verdict of its last pass, and no
    earlier pass had a confirmed marker. *)
Lemma search_loop_found i s now :
  let r := search_loop w start timeout i s now in
  (laps r = [] -> found r = false) /\
  (forall n : nat, length (laps r) = S n ->
     found r = confirmed (tello s) (ticks w (i + n)) /\
     forall j : nat, (j < n)%nat ->
                     confirmed (tello s) (ticks w (i + j)) = false).
Proof.
  apply (search_loop_passes (fun i s _ r =>
    (laps r = [] -> found r = false) /\
    (forall n : nat, length (laps r) = S n ->
       found r = confirmed (tello s) (ticks w (i + n)) /\
       forall j : nat, (j < n)%nat ->
                       confirmed (tello s) (ticks w (i + j)) = false)));
    clear i s now; simpl.
  - intros i s now _. split; [reflexivity | discriminate].
  - intros i s now r s' d evs _ Hb. split; [discriminate|].
    intros n Hn. injection Hn as <-. rewrite Nat.add_0_r.
    pose proof (loop_body_confirmed s (ticks w i)) as H.
    rewrite Hb in H. split; [assumption | intros j Hj; lia].
  - intros i s now s' d evs _ Hb [IH0 IH].
    pose proof (loop_body_confirmed s (ticks w i)) as Hc.
    pose proof (loop_body_only_spot s (ticks w i)) as Ht.
    rewrite Hb in Hc, Ht. apply only_spot_tello in Ht.
    split; [discriminate|].
    intros n Hn. injection Hn as Hn.
    destruct n as [|m].
    + rewrite Nat.add_0_r, Hc.
      split; [apply IH0; by destruct (laps _) | intros j Hj; lia].
    + destruct (IH m Hn) as [Hf Hbefore]. rewrite Ht in Hf, Hbefore.
      replace (i + S m)%nat with (S i + m)%nat by lia.
      split; [assumption|].
      intros [|j] Hj; [by rewrite Nat.add_0_r|].
      replace (i + S j)%nat with (S i + j)%nat by lia.
      apply Hbefore. lia.
Qed.

Lemma search_loop_events i s now :
  Forall (fun e => loop_event e = true)
    (events (search_loop w start timeout i s now)).
Proof.
  apply (search_loop_passes (fun _ _ _ r =>
    Forall (fun e => loop_event e = true) (events r)));
    clear i s now; simpl.
  - intros. constructor.
  - intros i s now r s' d evs _ Hb.
    pose proof (loop_body_events s (ticks w i)) as H. by rewrite Hb in H.
  - intros i s now s' d evs _ Hb IH.
    pose proof (loop_body_events s (ticks w i)) as H. rewrite Hb in H.
    apply Forall_app. by split.
Qed.

End SearchLoop.

(** ** The search as a whole *)

Lemma search_only_spot w s now :
  only_spot s (after (_search_charging_spot w s now)).
Proof.
  unfold _search_charging_spot.
  destruct (has_get_frame_read (tello s)); simpl; [|apply only_spot_refl].
  destruct (has_streamon (tello s)); simpl;
    [destruct (streamon w); simpl; [|apply only_spot_refl]|];
    (destruct (get_frame_read w); simpl;
     [apply search_loop_only_spot | apply only_spot_refl]).
Qed.

Lemma search_events w s now :
  exists evs,
    events (_search_charging_spot w s now) = SearchStart :: evs /\
    Forall (fun e => loop_event e = true) evs.
Proof.
  unfold _search_charging_spot.
  destruct (has_get_frame_read (tello s)); simpl;
    [|eexists; split; [reflexivity | constructor]].
  destruct (has_streamon (tello s)); simpl;
    [destruct (streamon w); simpl|];
    try (destruct (get_frame_read w); simpl);
    eexists; (split; [reflexivity|]);
    repeat first [apply Forall_cons; split; [reflexivity|]
                 | apply Forall_nil_2
                 | apply search_loop_events ].
Qed.

Lemma search_clock w s now :
  let r := _search_charging_spot w s now in
  clock r = start_time r + total (laps r) /\
  (laps r = [] \/
   exists ds d, laps r = ds ++ [d] /\
                total ds < search_timeout (aruco_config s)).
Proof.
  unfold _search_charging_spot.
  destruct (search_loop_clock w (now + Z.of_N (setup w))
              (search_timeout (aruco_config s)) 0 s
              (now + Z.of_N (setup w))) as (Hs & Hc & Hl).
  destruct (has_get_frame_read (tello s)), (has_streamon (tello s)),
    (streamon w), (get_frame_read w); simpl;
    first
      [ split; [lia | by left]
      | split;
        [ lia
        | destruct Hl as [Hl | (ds & d & Hl & Hds)];
          [ by left
          | right; exists ds, d; split; [assumption | lia] ] ] ].
Qed.

Lemma search_found w s now :
  let r := _search_charging_spot w s now in
  (laps r = [] -> found r = false) /\
  (forall n : nat, length (laps r) = S n ->
     found r = confirmed (tello s) (ticks w n) /\
     forall j : nat, (j < n)%nat -> confirmed (tello s) (ticks w j) = false).
Proof.
  unfold _search_charging_spot.
  pose proof (search_loop_found w (now + Z.of_N (setup w))
                (search_timeout (aruco_config s)) 0 s
                (now + Z.of_N (setup w))) as Hloop.
  destruct (has_get_frame_read (tello s)), (has_streamon (tello s)),
    (streamon w), (get_frame_read w); simpl;
    first [ exact Hloop | split; [done | discriminate] ].
Qed.

(** C3. Measured from the reading [start_time], the search returns
    after the sum of its laps, and every lap but the last one began
    before [search_timeout] had elapsed: it ends within the timeout
    plus the duration of one final pass of the loop, whatever the frame
    source and the detector do. It returns a boolean, [True] only when
    its last pass saw a marker and the approach confirmed it, so [False]
    when no approach succeeds. *)
Theorem search_terminates_within_timeout (w : world)
    (s : EnhancedSimulation) (now : Z) :
  let r := _search_charging_spot w s now in
  clock r = start_time r + total (laps r) /\
  (laps r = [] \/
   exists ds d, laps r = ds ++ [d] /\
                total ds < search_timeout (aruco_config s) /\
                clock r - start_time r < search_timeout (aruco_config s) + d)
  /\
  (found r = true <->
   exists n : nat, length (laps r) = S n /\
                   confirmed (tello s) (ticks w n) = true).
Proof.
  cbv zeta.
  destruct (search_clock w s now) as [Hc Hl].
  destruct (search_found w s now) as [H0 Hn].
  split; [assumption|]. split.
  - destruct Hl as [Hl | (ds & d & Hl & Hds)]; [by left|].
    right. exists ds, d. repeat split; try assumption.
    rewrite Hc, Hl.
    assert (total (ds ++ [d]) = total ds + d) as ->; [|lia].
    clear. induction ds as [|x ds IH]; simpl; lia.
  - split.
    + intros Hf.
      destruct (laps (_search_charging_spot w s now)) as [|d ds] eqn:El.
      * rewrite H0 in Hf by reflexivity. discriminate.
      * exists (length ds). split; [reflexivity|].
        destruct (Hn (length ds) eq_refl) as [<- _]. assumption.
    + intros (n & Hlen & Hconf).
      destruct (Hn n Hlen) as [-> _]. assumption.
Qed.

(** A camera that never delivers a frame: the search gives up when the
    timeout has elapsed. *)
Example search_in_the_dark :
  let r := manual_charging_search dark (__init__ drone None) 0 in
  found r = false /\ clock r = 30000 /\ length (laps r) = 300%nat.
Proof. vm_compute. repeat split. Qed.

(** ** The pass that ends a search *)

Lemma only_spot_aruco_config s s' :
  only_spot s s' -> aruco_config s' = aruco_config s.
Proof. by intros (b & p & ->). Qed.

Lemma detect_marks s d :
  exists n : nat, snd (_detect_aruco_markers s d) = marks n.
Proof.
  destruct d as [|[ms|]]; [by exists 0%nat | | by exists 0%nat].
  exists (iterations ms). apply record_markers_marks.
Qed.

(** What the approach does before it looks again: one forward move of
    [approach_distance] and, when the move went through, a wait of two
    seconds; the only other events are the writes of the detection. *)
Lemma approach_moves s t :
  let dist := approach_distance (aruco_config s) in
  (has_move_forward (tello s) = true -> move t = Done ->
   exists n : nat,
     snd (fst (_approach_charging_spot s t)) =
       Command (MoveForward dist) :: Sleep 2000 :: marks n /\
     snd (_approach_charging_spot s t) = 2000) /\
  (has_move_forward (tello s) = true -> move t = Raises ->
   _approach_charging_spot s t =
     (false, s, [Command (MoveForward dist)], 0)) /\
  (has_move_forward (tello s) = false ->
   exists n : nat,
     snd (fst (_approach_charging_spot s t)) = marks n /\
     snd (_approach_charging_spot s t) = 0).
Proof.
  cbv zeta. unfold _approach_charging_spot.
  destruct (detect_marks s (detect2 t)) as [n Hn].
  destruct (_detect_aruco_markers s (detect2 t)) as [[ok s'] evs].
  simpl in Hn. subst evs.
  destruct (has_move_forward (tello s)), (move t), (frame2 t) as [|[f|]];
    (split; [|split]); try discriminate; try reflexivity; intros;
    first [ by exists n | by exists 0%nat ].
Qed.

(** A pass that sees a marker and confirms it: the writes of the first
    detection, the move and the wait, the writes of the second
    detection, and the function returns [True]. *)
Lemma loop_body_confirmed_pass s t :
  confirmed (tello s) t = true ->
  exists (s' : EnhancedSimulation) (n1 n2 : nat),
    loop_body s t =
    Exit true s'
      ((if has_move_forward (tello s) then 2000 else 0)
       + Z.of_N (overhead t))
      (marks n1
         ++ (if has_move_forward (tello s)
             then [Command (MoveForward (approach_distance (aruco_config s)));
                   Sleep 2000]
             else [])
         ++ marks n2).
Proof.
  intros Hc. apply andb_true_iff in Hc as [Hs Hd].
  unfold sighted in Hs. unfold loop_body.
  destruct (frame1 t) as [|[f|]]; try discriminate.
  pose proof (detect_result s (detect1 t)) as H1.
  pose proof (detect_only_spot s (detect1 t)) as Hspot.
  destruct (detect_marks s (detect1 t)) as [n1 Hn1].
  destruct (_detect_aruco_markers s (detect1 t)) as [[markers s1] e1].
  simpl in H1, Hspot, Hn1. subst e1. rewrite Hs in H1. subst markers.
  pose proof (only_spot_tello _ _ Hspot) as Ht.
  pose proof (only_spot_aruco_config _ _ Hspot) as Ha.
  pose proof (approach_result s1 t) as H2.
  destruct (approach_moves s1 t) as (Hm1 & Hm2 & Hm3).
  rewrite Ht in H2, Hm1, Hm2, Hm3. rewrite Ha in Hm1, Hm2. rewrite Hd in H2.
  unfold still_detected in Hd.
  destruct (_approach_charging_spot s1 t) as [[[ok s2] e2] sl].
  simpl in H2, Hm1, Hm3. subst ok.
  destruct (has_move_forward (tello s)).
  - destruct (move t); [|discriminate].
    destruct (Hm1 eq_refl eq_refl) as (n2 & -> & ->). by exists s2, n1, n2.
  - destruct (Hm3 eq_refl) as (n2 & -> & ->). by exists s2, n1, n2.
Qed.

(** The events of the loop end with those of its last pass, and its
    last lap is the duration of that pass. *)
Lemma search_loop_last w start timeout i s now :
  let r := search_loop w start timeout i s now in
  (laps r = [] -> events r = []) /\
  (forall n : nat, length (laps r) = S n ->
     exists (s0 : EnhancedSimulation) (pre : list event),
       only_spot s s0 /\
       events r = pre ++ pass_events (loop_body s0 (ticks w (i + n))) /\
       last (laps r) = Some (pass_took (loop_body s0 (ticks w (i + n))))).
Proof.
  apply (search_loop_passes w start timeout (fun i s _ r =>
    (laps r = [] -> events r = []) /\
    (forall n : nat, length (laps r) = S n ->
       exists (s0 : EnhancedSimulation) (pre : list event),
         only_spot s s0 /\
         events r = pre ++ pass_events (loop_body s0 (ticks w (i + n))) /\
         last (laps r) =
           Some (pass_took (loop_body s0 (ticks w (i + n)))))));
    clear i s now; simpl.
  - intros i s now _. split; [reflexivity | discriminate].
  - intros i s now r s' d evs _ Hb. split; [discriminate|].
    intros n Hn. injection Hn as <-. rewrite Nat.add_0_r.
    exists s, []. rewrite Hb. split; [apply only_spot_refl | by split].
  - intros i s now s' d evs _ Hb [IH0 IH].
    pose proof (loop_body_only_spot s (ticks w i)) as Hs.
    rewrite Hb in Hs.
    split; [discriminate|].
    intros n Hn. injection Hn as Hn.
    destruct n as [|m].
    + assert (laps (search_loop w start timeout (S i) s' (now + d)) = [])
        as Hl by (by destruct (laps _)).
      rewrite (IH0 Hl), Hl, Nat.add_0_r.
      exists s, []. rewrite Hb. simpl. rewrite app_nil_r.
      split; [apply only_spot_refl | by split].
    + destruct (IH m Hn) as (s0 & pre & Hs0 & Hev & Hlast).
      replace (i + S m)%nat with (S i + m)%nat by lia.
      exists s0, (evs ++ pre).
      split; [eapply only_spot_trans; eassumption|].
      split; [by rewrite Hev, app_assoc|].
      rewrite last_cons, Hlast. reflexivity.
Qed.

Lemma search_last w s now :
  let r := _search_charging_spot w s now in
  forall n : nat, length (laps r) = S n ->
    exists (s0 : EnhancedSimulation) (pre : list event),
      only_spot s s0 /\
      events r = pre ++ pass_events (loop_body s0 (ticks w n)) /\
      last (laps r) = Some (pass_took (loop_body s0 (ticks w n))).
Proof.
  unfold _search_charging_spot.
  pose proof (proj2 (search_loop_last w (now + Z.of_N (setup w))
                       (search_timeout (aruco_config s)) 0 s
                       (now + Z.of_N (setup w)))) as Hloop.
  cbv zeta in Hloop.
  destruct (has_get_frame_read (tello s)), (has_streamon (tello s)),
    (streamon w), (get_frame_read w); simpl; try discriminate;
    intros n Hn; destruct (Hloop n Hn) as (s0 & pre & Hs0 & Hev & Hlast);
    simpl in Hev; rewrite Hev;
    match goal with
    | |- context [SearchStart :: ?a :: ?b :: pre ++ _] =>
        exists s0, (SearchStart :: a :: b :: pre)
    | |- context [SearchStart :: ?a :: pre ++ _] =>
        exists s0, (SearchStart :: a :: pre)
    end; by repeat split.
Qed.

(** C7, as stated, fails. At every pass of this search the detector
    gives ids on the fetched frame and gives ids again after the move
    and the wait; the lookup of the marker's id raises in the second
    detection, which therefore returns [False] although it has recorded
    the charging spot. The approach fails at every pass and the search
    returns [False] when the timeout has elapsed. *)
Lemma lookup_failure_defeats_confirmation :
  let s := __init__ drone None in
  let r := manual_charging_search garbled s 0 in
  (forall i : nat, marker_before_and_after (tello s) (ticks garbled i) = true)
  /\
  _approach_charging_spot s smudged =
    (false, spot true (Some (322, 241)) s,
     [Command (MoveForward 30); Sleep 2000;
      Write ChargingSpotPosition; Write ChargingSpotFound], 2000) /\
  found r = false /\ length (laps r) = 10%nat /\
  charging_spot_found (after r) = true.
Proof. vm_compute. by repeat split. Qed.

(** C7, amended. A run of [_detect_aruco_markers] returns [True]
    exactly when the detector gives ids and every marker is handled to
    the end of its iteration. The approach makes one forward move of
    [approach_distance] when the drone has that command, waits two
    seconds when the move went through, and only then looks again; it
    succeeds exactly when the move, if any, went through, a frame is
    fetched again and the detection on it returns [True]. A search in
    which some pass has the detection return [True] on the fetched frame
    and again after the move and the wait returns [True] at that very
    pass: its trace ends with the move, the wait and the writes of the
    second detection, and its last lap lasts the wait plus the overhead
    of the pass. *)
Theorem confirmed_marker_ends_search :
  (forall (s : EnhancedSimulation) (d : detection),
      fst (fst (_detect_aruco_markers s d)) = true <-> reported d = true) /\
  (forall (s : EnhancedSimulation) (t : tick),
      (fst (fst (fst (_approach_charging_spot s t))) = true <->
       still_detected (tello s) t = true) /\
      (has_move_forward (tello s) = true -> move t = Done ->
       exists n : nat,
         snd (fst (_approach_charging_spot s t)) =
           Command (MoveForward (approach_distance (aruco_config s)))
             :: Sleep 2000 :: marks n /\
         snd (_approach_charging_spot s t) = 2000) /\
      (has_move_forward (tello s) = true -> move t = Raises ->
       _approach_charging_spot s t =
         (false, s,
          [Command (MoveForward (approach_distance (aruco_config s)))], 0)) /\
      (has_move_forward (tello s) = false ->
       exists n : nat,
         snd (fst (_approach_charging_spot s t)) = marks n /\
         snd (_approach_charging_spot s t) = 0)) /\
  (forall (w : world) (s : EnhancedSimulation) (now : Z) (i : nat),
      let r := manual_charging_search w s now in
      (i < length (laps r))%nat ->
      sighted (ticks w i) = true ->
      still_detected (tello s) (ticks w i) = true ->
      found r = true /\ length (laps r) = S i /\
      (exists (pre : list event) (n : nat),
          events r =
          pre ++ (if has_move_forward (tello s)
                  then [Command (MoveForward
                                   (approach_distance (aruco_config s)));
                        Sleep 2000]
                  else [])
              ++ marks n) /\
      last (laps r) =
        Some ((if has_move_forward (tello s) then 2000 else 0)
              + Z.of_N (overhead (ticks w i)))).
Proof.
  split; [|split].
  - intros s d. by rewrite detect_result.
  - intros s t. split; [by rewrite approach_result | apply approach_moves].
  - intros w s now i r Hi Hsee Hstill. subst r.
    unfold manual_charging_search in *.
    destruct (search_found w s now) as [_ Hn].
    pose proof (search_last w s now) as Hlast. cbv zeta in Hlast.
    destruct (laps (_search_charging_spot w s now)) as [|d ds] eqn:El;
      simpl in Hi; [lia|].
    destruct (Hn (length ds) eq_refl) as [Hf Hbefore].
    assert (confirmed (tello s) (ticks w i) = true) as Hc
      by (unfold confirmed; by rewrite Hsee, Hstill).
    destruct (Nat.eq_dec i (length ds)) as [->|Hne];
      [|rewrite Hbefore in Hc by lia; discriminate].
    split; [by rewrite Hf|]. split; [reflexivity|].
    destruct (Hlast (length ds) eq_refl)
      as (s0 & pre & Hs0 & Hev & Hlap).
    pose proof (only_spot_tello _ _ Hs0) as Ht.
    pose proof (only_spot_aruco_config _ _ Hs0) as Ha.
    rewrite <- Ht in Hc.
    destruct (loop_body_confirmed_pass s0 (ticks w (length ds)) Hc)
      as (s' & n1 & n2 & Hpass).
    rewrite Hpass, Ht, Ha in Hev, Hlap. cbn [pass_events pass_took] in *.
    split; [|exact Hlap].
    exists (pre ++ marks n1), n2. by rewrite Hev, <- app_assoc.
Qed.

Lemma confirmed_marker_ends_search_witness :
  let r := manual_charging_search dawn (__init__ drone None) 0 in
  (found r = true /\ length (laps r) = 3%nat /\
   (exists (pre : list event) (n : nat),
       events r = pre ++ [Command (MoveForward 30); Sleep 2000] ++ marks n) /\
   last (laps r) = Some 2000) /\
  (exists n : nat,
      snd (fst (_approach_charging_spot (__init__ drone None) seen)) =
        Command (MoveForward 30) :: Sleep 2000 :: marks n /\
      snd (_approach_charging_spot (__init__ drone None) seen) = 2000).
Proof.
  split.
  - apply (proj2 (proj2 confirmed_marker_ends_search)
             dawn (__init__ drone None) 0 2%nat).
    + vm_compute. lia.
    + reflexivity.
    + reflexivity.
  - apply (proj1 (proj2 (proj1 (proj2 confirmed_marker_ends_search)
                           (__init__ drone None) seen))).
    + reflexivity.
    + reflexivity.
Defined.

(** ** Processing a sample *)

Lemma status_eqb_eq a b : status_eqb a b = true <-> a = b.
Proof. by destruct a, b. Qed.

Lemma new_status_in_service c p : in_service (new_status c p).
Proof.
  unfold new_status, in_service.
  repeat case_innermost; auto.
Qed.

Lemma handle_only_spot w s now :
  only_spot s (sim (_handle_critical_battery w s now)).
Proof. apply search_only_spot. Qed.

(** Processing a sample stores the sample and its classification, and
    touches nothing else but the charging-spot fields. *)
Lemma process_sim w s l now :
  only_spot
    (set_current_battery_status (new_status (battery_config s) l)
       (set_last_battery_level l s))
    (sim (_process_battery_level w s l now)).
Proof.
  unfold _process_battery_level. cbn [battery_config set_last_battery_level
    current_battery_status].
  destruct (status_eqb (new_status (battery_config s) l)
              (current_battery_status s)) eqn:E; cbn [negb].
  - apply status_eqb_eq in E. rewrite E. cbn [sim].
    exists (charging_spot_found s), (charging_spot_position s).
    by destruct s.
  - destruct (status_eqb (new_status (battery_config s) l) CRITICAL);
      cbn [sim]; [apply handle_only_spot | apply only_spot_refl].
Qed.

Lemma process_status w s l now :
  current_battery_status (sim (_process_battery_level w s l now)) =
  new_status (battery_config s) l.
Proof.
  by rewrite (only_spot_status _ _ (process_sim w s l now)).
Qed.

Lemma process_battery_config w s l now :
  battery_config (sim (_process_battery_level w s l now)) = battery_config s.
Proof.
  by rewrite (only_spot_battery_config _ _ (process_sim w s l now)).
Qed.

Lemma process_battery_callback w s l now :
  battery_callback (sim (_process_battery_level w s l now)) =
  battery_callback s.
Proof.
  by rewrite (only_spot_battery_callback _ _ (process_sim w s l now)).
Qed.

Lemma process_charging_callback w s l now :
  charging_callback (sim (_process_battery_level w s l now)) =
  charging_callback s.
Proof.
  by destruct (process_sim w s l now) as (b & p & ->).
Qed.

Lemma observed_classification samples s now :
  observed samples s now = classify_all (battery_config s) samples.
Proof.
  revert s now. induction samples as [|[l w] rest IH]; intros s now; simpl.
  - reflexivity.
  - rewrite process_status, IH, process_battery_config. reflexivity.
Qed.

Lemma classified_new_status c p st :
  new_status c p = st <->
  classified (warning_threshold c) (critical_threshold c)
    (charging_threshold c) p st.
Proof.
  unfold new_status. split.
  - intros <-.
    destruct (Z.leb_spec p (charging_threshold c));
      [by constructor|].
    destruct (Z.leb_spec p (critical_threshold c));
      [constructor; lia|].
    destruct (Z.leb_spec p (warning_threshold c)); constructor; lia.
  - intros H.
    destruct H;
      repeat match goal with
             | |- context [?a <=? ?b] => destruct (Z.leb_spec a b); try lia
             end; reflexivity.
Qed.

(** C1. The status stored by [_process_battery_level] for a sample [p]
    is the one the precedence rule gives from [p] and the three
    thresholds alone: at most [charging_threshold], Critical; else at
    most [critical_threshold], Critical; else at most
    [warning_threshold], Warning; else Normal. It holds for every
    integer [p], so for those of 0..100. With thresholds 20, 10 and 5
    the samples 25, 18, 9, 3 are classified Normal, Warning, Critical,
    Critical. *)
Theorem classification_by_precedence :
  (forall (w : world) (s : EnhancedSimulation) (p now : Z)
          (st : BatteryStatus),
      current_battery_status (sim (_process_battery_level w s p now)) = st
      <->
      classified (warning_threshold (battery_config s))
        (critical_threshold (battery_config s))
        (charging_threshold (battery_config s)) p st) /\
  (forall (d : Tello) (w1 w2 w3 w4 : world) (now : Z),
      observed [(25, w1); (18, w2); (9, w3); (3, w4)]
        (__init__ d (Some scenario)) now
      = [NORMAL; WARNING; CRITICAL; CRITICAL]).
Proof.
  split.
  - intros w s p now st. rewrite process_status.
    apply classified_new_status.
  - intros d w1 w2 w3 w4 now. rewrite observed_classification.
    reflexivity.
Qed.

(** ** Counting callbacks and searches *)

Lemma count_app p tr1 tr2 :
  count p (tr1 ++ tr2) = (count p tr1 + count p tr2)%nat.
Proof. induction tr1 as [|e tr1 IH]; simpl; [reflexivity | lia]. Qed.

Lemma count_loop_events p evs :
  (forall e, loop_event e = true -> p e = false) ->
  Forall (fun e => loop_event e = true) evs ->
  count p evs = 0%nat.
Proof.
  intros Hp. induction 1 as [|e evs He _ IH]; simpl; [reflexivity|].
  by rewrite (Hp e He), IH.
Qed.

Lemma count_search p w s now :
  (forall e, loop_event e = true -> p e = false) ->
  count p (events (_search_charging_spot w s now)) =
  if p SearchStart then 1%nat else 0%nat.
Proof.
  intros Hp. destruct (search_events w s now) as (evs & -> & Hevs).
  simpl. rewrite (count_loop_events p evs Hp Hevs). lia.
Qed.

Ltac loop_event_excluded :=
  let e := fresh "e" in
  intros e; destruct e as [| |[]| | | | | | | | |]; simpl;
  congruence.

(** What one sample adds to the counts. *)
Lemma process_counts w s l now :
  let new := new_status (battery_config s) l in
  let tr := trace (_process_battery_level w s l now) in
  let changed := negb (status_eqb new (current_battery_status s)) in
  let entered := changed && status_eqb new CRITICAL in
  count is_battery_callback tr =
    (if changed
     then match battery_callback s with Some _ => 1 | None => 0 end
     else 0)%nat /\
  count is_charging_callback tr =
    (if entered
     then match charging_callback s with Some _ => 1 | None => 0 end
     else 0)%nat /\
  count is_handle_critical tr = (if entered then 1 else 0)%nat /\
  count is_search_start tr = (if entered then 1 else 0)%nat.
Proof.
  cbv zeta. unfold _process_battery_level, _handle_critical_battery.
  cbn [battery_config set_last_battery_level current_battery_status
       set_current_battery_status battery_callback charging_callback
       last_battery_level].
  destruct (negb (status_eqb (new_status (battery_config s) l)
                    (current_battery_status s))); [|by repeat split].
  destruct (status_eqb (new_status (battery_config s) l) CRITICAL);
    cbn [andb trace]; rewrite ?count_app; cbn [count];
    rewrite ?count_app, ?count_search by loop_event_excluded;
    destruct (battery_callback s), (charging_callback s); simpl;
    repeat split; lia.
Qed.

(** C2. Along any sequence of samples the battery-change callback, when
    one is registered, is invoked once for each change of status and
    not otherwise; the critical-entry handling and the search run once
    for each change into Critical, and so does the critical-entry
    callback when one is registered. *)
Theorem callbacks_once_per_transition (samples : list sample)
    (s : EnhancedSimulation) (now : Z) :
  let tr := trace (process_all samples s now) in
  let sts := classify_all (battery_config s) samples in
  count is_battery_callback tr =
    match battery_callback s with
    | Some _ => transitions (current_battery_status s) sts
    | None => 0%nat
    end /\
  count is_charging_callback tr =
    match charging_callback s with
    | Some _ => critical_entries (current_battery_status s) sts
    | None => 0%nat
    end /\
  count is_handle_critical tr =
    critical_entries (current_battery_status s) sts /\
  count is_search_start tr =
    critical_entries (current_battery_status s) sts.
Proof.
  cbv zeta. revert s now.
  induction samples as [|[l w] rest IH]; intros s now.
  - simpl. by destruct (battery_callback s), (charging_callback s).
  - cbn [process_all trace classify_all map fst transitions critical_entries].
    rewrite !count_app.
    destruct (process_counts w s l now) as (Hb & Hc & Hh & Hs).
    destruct (IH (sim (_process_battery_level w s l now))
                 (time (_process_battery_level w s l now)))
      as (IHb & IHc & IHh & IHs).
    rewrite process_battery_config, process_status,
      ?process_battery_callback, ?process_charging_callback in *.
    fold (classify_all (battery_config s) rest) in *.
    rewrite Hb, Hc, Hh, Hs, IHb, IHc, IHh, IHs.
    destruct (status_eqb (new_status (battery_config s) l)
                (current_battery_status s)),
      (status_eqb (new_status (battery_config s) l) CRITICAL),
      (battery_callback s), (charging_callback s); simpl; repeat split; lia.
Qed.

(** The scenario of the specification: two firings of the callback and
    one search. *)
Example scenario_counts :
  let s := set_callbacks (Some watching) None None
             (__init__ drone (Some scenario)) in
  let tr := trace (process_all [(25, lit); (18, lit); (9, lit); (3, lit)]
                     s 0) in
  count is_battery_callback tr = 2%nat /\ count is_search_start tr = 1%nat.
Proof. vm_compute. split; reflexivity. Qed.

(** Three polls in a row at 15%: the callback fires at the first. *)
Example repeated_warning_fires_once :
  let s := set_callbacks (Some watching) None None (__init__ drone None) in
  trace (process_all [(15, dark); (15, dark); (15, dark)] s 0) =
  [Acquire; Write LastBatteryLevel; Write CurrentBatteryStatus;
   BatteryCallback 15 WARNING; Release;
   Acquire; Write LastBatteryLevel; Release;
   Acquire; Write LastBatteryLevel; Release].
Proof. reflexivity. Qed.

(** ** The guard *)

Lemma guarded_inside body :
  Forall (fun e => is_lock_event e = false) body ->
  guarded true (body ++ [Release]) = true.
Proof.
  induction 1 as [|e body He _ IH]; [reflexivity|].
  destruct e as [| |f| | | | | | | | |]; try discriminate; simpl;
    assumption.
Qed.

Lemma released_at_end_inside body :
  Forall (fun e => is_lock_event e = false) body ->
  released_at_end (body ++ [Release]) = true.
Proof.
  induction 1 as [|e body He _ IH]; [reflexivity|].
  cbn [app released_at_end]. rewrite He, IH.
  by destruct body.
Qed.

(** A block that takes the guard, does [body] and releases it. *)
Lemma block_under_guard body :
  Forall (fun e => is_lock_event e = false) body ->
  held_throughout (Acquire :: body ++ [Release]) = true /\
  guarded false (Acquire :: body ++ [Release]) = true.
Proof.
  intros H. split.
  - by apply released_at_end_inside.
  - by apply guarded_inside.
Qed.

Lemma loop_event_not_lock e : loop_event e = true -> is_lock_event e = false.
Proof. by destruct e as [| |[]| | | | | | | | |]. Qed.

Lemma search_not_lock w s now :
  Forall (fun e => is_lock_event e = false)
    (events (_search_charging_spot w s now)).
Proof.
  destruct (search_events w s now) as (evs & -> & Hevs).
  constructor; [reflexivity|].
  eapply Forall_impl; [exact Hevs | exact loop_event_not_lock].
Qed.

(** The trace of [_process_battery_level]: the guard is taken first,
    released last, and not touched in between. *)
Lemma process_trace w s l now :
  exists body,
    trace (_process_battery_level w s l now) = Acquire :: body ++ [Release] /\
    Forall (fun e => is_lock_event e = false) body.
Proof.
  unfold _process_battery_level, _handle_critical_battery.
  destruct (negb _);
    [|exists [Write LastBatteryLevel]; split;
      [reflexivity | by repeat constructor]].
  destruct (status_eqb _ CRITICAL); cbn [trace app].
  - match goal with
    | |- exists body,
          Acquire :: ?a :: ?b :: ?c ++ ?h :: ?m ++ [Release] = _ /\ _ =>
        exists (a :: b :: c ++ h :: m); split;
        [repeat first [rewrite <- app_assoc | progress cbn [app]];
         reflexivity|]
    end.
    repeat first [apply Forall_app; split | apply Forall_cons; split];
      try reflexivity; try apply search_not_lock;
      repeat case_innermost; by repeat constructor.
  - match goal with
    | |- exists body, Acquire :: ?a :: ?b :: ?c ++ [Release] = _ /\ _ =>
        exists (a :: b :: c); split; [reflexivity|]
    end.
    repeat first [apply Forall_app; split | apply Forall_cons; split];
      try reflexivity; repeat case_innermost; by repeat constructor.
Qed.

(** The trace of [update_config]: the guard, one write for each
    recognised key of the argument, the release. *)
Lemma update_config_trace c s :
  exists body,
    snd (update_config c s) = Acquire :: body ++ [Release] /\
    Forall (fun e => e = Write BatteryConfigField) body /\
    length body = length (List.filter (given c) recognised_keys).
Proof.
  unfold update_config, recognised_keys, given. cbn [snd List.filter].
  destruct (c !! "warning_threshold"), (c !! "critical_threshold"),
    (c !! "charging_threshold"), (c !! "check_interval");
    simpl;
    match goal with
    | |- exists body, Acquire :: ?t = _ /\ _ =>
        exists (removelast t)
    end; simpl;
    (split; [reflexivity|]); (split; [|reflexivity]);
    repeat (apply List.Forall_cons; [reflexivity|]); apply List.Forall_nil.
Qed.

(** C6, as stated, fails: the battery-change callback runs inside
    [with self.lock], and a manual search records the charging spot
    without taking the guard. *)
Lemma callbacks_run_inside_the_guard :
  disciplined false
    (trace (_process_battery_level dark
              (set_callbacks (Some watching) None None (__init__ drone None))
              15 0)) = false /\
  disciplined false
    (events (manual_charging_search lit (__init__ drone None) 0)) = false.
Proof. split; reflexivity. Qed.

(** What [guarded] and [held_throughout] refuse: a configuration write
    or a callback with the guard free, the guard taken twice, the guard
    left held, and the trace of a manual search, which records the
    charging spot without the guard. *)
Example guard_checks_refuse :
  guarded false [Write BatteryConfigField] = false /\
  guarded false [Acquire; Release; BatteryCallback 15 WARNING] = false /\
  guarded false [Acquire; Acquire; Release] = false /\
  guarded false [Acquire; Write LastBatteryLevel] = false /\
  held_throughout [Acquire; Release; Acquire; Release] = false /\
  held_throughout [Write LastBatteryLevel; Acquire; Release] = false /\
  guarded false
    (events (manual_charging_search lit (__init__ drone None) 0)) = false.
Proof. repeat split. Qed.

(** C6, amended. The trace of [_process_battery_level] is one guarded
    block: the guard is taken at the first event, released at the last
    and not touched in between, so that every write of the last battery
    level and of the current status, every charging-spot write of the
    search it starts, and every invocation of the battery-change and
    critical-entry callbacks happens with the guard held; the write of
    the last battery level is always among them. The traces of
    [update_config] and [reset_charging_spot_status] are guarded blocks
    too: [update_config] writes the configuration once for each
    recognised key, all inside the block, and
    [reset_charging_spot_status] writes the two charging-spot fields
    inside the block. *)
Theorem writes_and_callbacks_under_guard :
  (forall (w : world) (s : EnhancedSimulation) (l now : Z),
      let tr := trace (_process_battery_level w s l now) in
      held_throughout tr = true /\ guarded false tr = true /\
      In (Write LastBatteryLevel) tr) /\
  (forall (c : gmap string Z) (s : EnhancedSimulation),
      let tr := snd (update_config c s) in
      held_throughout tr = true /\ guarded false tr = true /\
      count is_write tr = length (List.filter (given c) recognised_keys)) /\
  (forall s : EnhancedSimulation,
      let tr := snd (reset_charging_spot_status s) in
      held_throughout tr = true /\ guarded false tr = true /\
      count is_write tr = 2%nat).
Proof.
  split; [|split].
  - intros w s l now. cbv zeta.
    destruct (process_trace w s l now) as (body & Htr & Hbody).
    rewrite Htr.
    destruct (block_under_guard body Hbody) as [H1 H2].
    split; [exact H1|]. split; [exact H2|].
    rewrite <- Htr. unfold _process_battery_level.
    repeat case_innermost; cbn [trace app]; right; by left.
  - intros c s. cbv zeta.
    destruct (update_config_trace c s) as (body & -> & Hbody & Hlen).
    assert (Hlock : Forall (fun e => is_lock_event e = false) body)
      by (eapply Forall_impl; [exact Hbody | by intros e ->]).
    destruct (block_under_guard body Hlock) as [H1 H2].
    split; [exact H1|]. split; [exact H2|].
    rewrite <- Hlen. clear -Hbody. change (Acquire :: body ++ [Release])
      with ([Acquire] ++ body ++ [Release]).
    rewrite !count_app. simpl.
    induction Hbody as [|e body -> _ IH]; [reflexivity|]. simpl. lia.
  - intros s. by vm_compute.
Qed.

(** ** The status under all operations *)

Lemma perform_in_service o s now :
  in_service (current_battery_status s) ->
  in_service (current_battery_status (fst (perform o s now))).
Proof.
  intros H. destruct o; cbn [perform fst]; try assumption.
  - unfold start_monitoring. by destruct (is_monitoring s).
  - unfold monitor_cycle.
    destruct (_get_battery_level s (reading c)) as [l|];
      case_innermost; cbn [sim]; try assumption;
      rewrite process_status; apply new_status_in_service.
  - rewrite process_status. apply new_status_in_service.
  - unfold manual_charging_search.
    by rewrite (only_spot_status _ _ (search_only_spot w s now)).
Qed.

(** C10. The classification never yields Charging, and from the state
    [__init__] builds, whatever operations follow, the stored status is
    Normal, Warning or Critical. *)
Theorem status_never_charging :
  (forall (c : BatteryConfig) (p : Z), in_service (new_status c p)) /\
  (forall (d : Tello) (cfg : option (gmap string Z))
          (os : list operation) (now : Z),
      in_service
        (current_battery_status (fst (perform_all os (__init__ d cfg) now))))
  /\ ~ in_service CHARGING.
Proof.
  split; [exact new_status_in_service|]. split.
  - intros d cfg os now.
    assert (in_service (current_battery_status (__init__ d cfg))) as H
      by (by left).
    revert H. generalize (__init__ d cfg). revert now.
    induction os as [|o os IH]; intros now s H; [exact H|].
    cbn [perform_all].
    pose proof (perform_in_service o s now H) as H'.
    destruct (perform o s now) as [s' now']. by apply IH.
  - by intros [|[|]].
Qed.

(** ** Reports *)

(** C8. When the live read gives no valid value, [get_battery_info]
    reports the cached level, and its two flags compare that level with
    the configured warning and critical thresholds. *)
Theorem battery_info_falls_back (s : EnhancedSimulation) (r : battery_read) :
  _get_battery_level s r = None ->
  let info := get_battery_info s r in
  current_level info = last_battery_level s /\
  (is_low info = true <->
   current_level info <= warning_threshold (battery_config s)) /\
  (is_critical info = true <->
   current_level info <= critical_threshold (battery_config s)).
Proof.
  intros H. unfold get_battery_info. rewrite H. cbn.
  split; [reflexivity|]. split; apply Z.leb_le.
Qed.

Lemma battery_info_falls_back_witness :
  let s := sim (_process_battery_level dark (__init__ drone None) 15 0) in
  let info := get_battery_info s ReadRaises in
  current_level info = last_battery_level s /\
  (is_low info = true <->
   current_level info <= warning_threshold (battery_config s)) /\
  (is_critical info = true <->
   current_level info <= critical_threshold (battery_config s)).
Proof.
  apply (battery_info_falls_back
           (sim (_process_battery_level dark (__init__ drone None) 15 0))
           ReadRaises).
  reflexivity.
Defined.

(** ** Starting and stopping *)

(** C9, as stated, fails: [stop_monitoring] has no [return] statement,
    so it hands back [None], not a boolean. *)
Lemma stop_monitoring_returns_none :
  ~ (returns_boolean (fst (fst (start_monitoring (__init__ drone None)))) /\
     returns_boolean
       (fst (fst (stop_monitoring false (__init__ drone None))))).
Proof. intros [_ [b Hb]]. discriminate. Qed.

(** C9, amended. [start_monitoring] returns a boolean and
    [stop_monitoring] returns [None]. Started while monitoring runs,
    [start_monitoring] returns [False] and changes nothing, so the
    second of two calls in a row does nothing; [stop_monitoring] called
    while monitoring does not run leaves the object as it is. *)
Theorem monitoring_idempotence (s : EnhancedSimulation) (alive : bool) :
  returns_boolean (fst (fst (start_monitoring s))) /\
  fst (fst (stop_monitoring alive s)) = PyNone /\
  (is_monitoring s = true -> start_monitoring s = (PyBool false, s, [])) /\
  (let s1 := snd (fst (start_monitoring s)) in
   start_monitoring s1 = (PyBool false, s1, [])) /\
  (is_monitoring s = false -> snd (fst (stop_monitoring alive s)) = s).
Proof.
  unfold start_monitoring, stop_monitoring.
  split; [|split; [|split; [|split]]].
  - destruct (is_monitoring s); eexists; reflexivity.
  - reflexivity.
  - intros ->. reflexivity.
  - cbv zeta. destruct (is_monitoring s) eqn:E; cbn [fst snd].
    + by rewrite E.
    + reflexivity.
  - intros E. cbn [fst snd]. destruct s. simpl in *. by subst.
Qed.

Lemma monitoring_idempotence_witness :
  start_monitoring (snd (fst (start_monitoring (__init__ drone None)))) =
    (PyBool false, snd (fst (start_monitoring (__init__ drone None))), []) /\
  snd (fst (stop_monitoring true (__init__ drone None))) =
    __init__ drone None.
Proof.
  split.
  - apply (proj1 (proj2 (proj2 (monitoring_idempotence
             (snd (fst (start_monitoring (__init__ drone None)))) true)))).
    reflexivity.
  - apply (proj2 (proj2 (proj2 (proj2 (monitoring_idempotence
             (__init__ drone None) true))))).
    reflexivity.
Defined.

(** ** Thresholds *)

(** C5, as stated, fails: nothing validates the thresholds, neither at
    construction nor in [update_config]. *)
Lemma unordered_thresholds_are_accepted :
  ~ thresholds_ordered
      (battery_config (__init__ drone (Some {[ "warning_threshold" := 3 ]})))
  /\
  (thresholds_ordered (battery_config (__init__ drone None)) /\
   ~ thresholds_ordered
       (battery_config
          (fst (update_config {[ "critical_threshold" := 50 ]}
                  (__init__ drone None))))).
Proof.
  unfold thresholds_ordered. vm_compute.
  repeat split; try discriminate; intros (? & ? & ? & ?); auto.
Qed.

(** C5, amended. Thresholds are taken as they are given. [__init__]
    stores each threshold of the configuration, or 20, 10 and 5 where
    its key is absent; [update_config] overwrites the thresholds whose
    keys are present and keeps the others; the default thresholds are
    ordered [0 <= 5 < 10 < 20 <= 100]. *)
Theorem thresholds_taken_as_given :
  (forall d : Tello, thresholds_ordered (battery_config (__init__ d None))) /\
  (forall (d : Tello) (cfg : gmap string Z),
      let c := battery_config (__init__ d (Some cfg)) in
      warning_threshold c = default 20 (cfg !! "warning_threshold") /\
      critical_threshold c = default 10 (cfg !! "critical_threshold") /\
      charging_threshold c = default 5 (cfg !! "charging_threshold")) /\
  (forall (new_config : gmap string Z) (s : EnhancedSimulation),
      let c := battery_config s in
      let c' := battery_config (fst (update_config new_config s)) in
      warning_threshold c' =
        default (warning_threshold c) (new_config !! "warning_threshold") /\
      critical_threshold c' =
        default (critical_threshold c) (new_config !! "critical_threshold") /\
      charging_threshold c' =
        default (charging_threshold c) (new_config !! "charging_threshold")).
Proof.
  split; [|split].
  - intros d. unfold thresholds_ordered. vm_compute.
    repeat split; congruence.
  - intros d cfg. cbv zeta. unfold __init__.
    cbn [battery_config warning_threshold critical_threshold
         charging_threshold].
    repeat split; reflexivity.
  - intros new_config s. cbv zeta. unfold update_config.
    cbn [fst battery_config set_battery_config].
    destruct (new_config !! "warning_threshold"),
      (new_config !! "critical_threshold"),
      (new_config !! "charging_threshold"),
      (new_config !! "check_interval"); repeat split; reflexivity.
Qed.

(** * Further properties *)

(** ** What a search keeps *)

Section Preserved.

(** A property of the object that recording a marker keeps. *)
Variable Q : EnhancedSimulation -> Prop.
Hypothesis recorded :
  forall s c, Q s ->
    Q (set_charging_spot_found true
         (set_charging_spot_position (Some c) s)).

Lemma record_markers_preserves ms s :
  Q s -> Q (snd (fst (record_markers ms s))).
Proof.
  revert s. induction ms as [|[[id|] c] ms IH]; intros s H; simpl;
    [exact H | | exact (recorded s c H)].
  specialize (IH _ (recorded s c H)).
  by destruct (record_markers ms _) as [[completed s2] evs].
Qed.

Lemma detect_preserves s d :
  Q s -> Q (snd (fst (_detect_aruco_markers s d))).
Proof.
  intros H. destruct d as [|[ms|]]; simpl; try exact H.
  by apply record_markers_preserves.
Qed.

Lemma approach_preserves s t :
  Q s -> Q (snd (fst (fst (_approach_charging_spot s t)))).
Proof.
  intros H. unfold _approach_charging_spot.
  pose proof (detect_preserves s (detect2 t) H) as H'.
  destruct (_detect_aruco_markers s (detect2 t)) as [[ok s'] evs].
  by destruct (has_move_forward (tello s)), (move t), (frame2 t) as [|[f|]].
Qed.

Lemma loop_body_preserves s t :
  Q s ->
  match loop_body s t with
  | Exit _ s' _ _ | Next s' _ _ => Q s'
  end.
Proof.
  intros H. unfold loop_body.
  destruct (frame1 t) as [|[f|]]; try exact H.
  pose proof (detect_preserves s (detect1 t) H) as H1.
  destruct (_detect_aruco_markers s (detect1 t)) as [[markers s1] e1].
  simpl in H1. destruct markers.
  - pose proof (approach_preserves s1 t H1) as H2.
    destruct (_approach_charging_spot s1 t) as [[[ok s2] e2] took].
    simpl in H2. destruct ok; [exact H2|].
    pose proof (turn_only_spot s2 t took (e1 ++ e2)) as H3.
    by destruct (turn s2 t took (e1 ++ e2)); subst.
  - pose proof (turn_only_spot s1 t 0 e1) as H3.
    by destruct (turn s1 t 0 e1); subst.
Qed.

Lemma search_loop_preserves w start timeout i s now :
  Q s -> Q (after (search_loop w start timeout i s now)).
Proof.
  apply (search_loop_passes w start timeout
           (fun _ s _ r => Q s -> Q (after r))); clear i s now; simpl.
  - by intros.
  - intros i s now r s' d evs _ Hb H.
    pose proof (loop_body_preserves s (ticks w i) H) as H'.
    by rewrite Hb in H'.
  - intros i s now s' d evs _ Hb IH H.
    pose proof (loop_body_preserves s (ticks w i) H) as H'.
    rewrite Hb in H'. by apply IH.
Qed.

Lemma search_preserves w s now :
  Q s -> Q (after (_search_charging_spot w s now)).
Proof.
  intros H. unfold _search_charging_spot.
  destruct (has_get_frame_read (tello s)), (has_streamon (tello s)),
    (streamon w), (get_frame_read w); simpl;
    first [exact H | by apply search_loop_preserves].
Qed.

End Preserved.

Lemma spot_spot b p b' p' s : spot b p (spot b' p' s) = spot b p s.
Proof. by destruct s. Qed.

(** The loop over markers that are all handled, then one more marker:
    the object holds the centre of that last one. *)
Lemma record_markers_last ms m s :
  forallb handled ms = true ->
  record_markers (ms ++ [m]) s =
  (handled m, spot true (Some (snd m)) s, marks (S (length ms))).
Proof.
  revert s. induction ms as [|[[id|] c] ms IH]; intros s H;
    try discriminate.
  - destruct m as [[id|] c]; simpl; by destruct s.
  - cbn [app record_markers]. rewrite (IH _ H).
    reflexivity.
Qed.

(** After a lookup that raises no further marker is looked at. *)
Lemma record_markers_stop ms c rest s :
  record_markers (ms ++ (LookupRaises, c) :: rest) s =
  record_markers (ms ++ [(LookupRaises, c)]) s.
Proof.
  revert s. induction ms as [|[[id|] c'] ms IH]; intros s;
    try reflexivity.
  cbn [app record_markers]. by rewrite IH.
Qed.

(** X1. When the detector reports markers and each is handled to the
    end of its iteration, [_detect_aruco_markers] returns [True] and
    leaves the flag set and the position at the centre of the last
    marker of the list. When the lookup of a marker raises, after the
    markers before it were handled, it returns [False], yet leaves the
    flag set and the position at the centre of that marker; the markers
    after it are not looked at. In both cases it has written the two
    fields once for each marker up to that one. When the detector
    reports none, or raises, it returns [False] and changes nothing. *)
Theorem detection_records_last_marker (s : EnhancedSimulation) :
  (forall (ms : list (lookup * point)) (id : Z) (center : point),
      forallb handled ms = true ->
      _detect_aruco_markers s (Ids (Some (ms ++ [(Id id, center)]))) =
      (true, spot true (Some center) s, marks (S (length ms)))) /\
  (forall (ms rest : list (lookup * point)) (center : point),
      forallb handled ms = true ->
      _detect_aruco_markers s
        (Ids (Some (ms ++ (LookupRaises, center) :: rest))) =
      (false, spot true (Some center) s, marks (S (length ms)))) /\
  (forall d : detection,
      d = Ids None \/ d = DetectRaises ->
      _detect_aruco_markers s d = (false, s, [])).
Proof.
  split; [|split].
  - intros ms id center H. cbn [_detect_aruco_markers].
    by rewrite (record_markers_last ms (Id id, center) s H).
  - intros ms rest center H. cbn [_detect_aruco_markers].
    rewrite record_markers_stop.
    by rewrite (record_markers_last ms (LookupRaises, center) s H).
  - by intros d [-> | ->].
Qed.

Lemma detection_records_last_marker_witness :
  _detect_aruco_markers (__init__ drone None)
    (Ids (Some ([(Id 7, (320, 240))] ++ [(Id 9, (100, 80))]))) =
  (true, spot true (Some (100, 80)) (__init__ drone None), marks 2) /\
  _detect_aruco_markers (__init__ drone None)
    (Ids (Some ([(Id 7, (320, 240))]
                  ++ (LookupRaises, (100, 80)) :: [(Id 3, (5, 5))]))) =
  (false, spot true (Some (100, 80)) (__init__ drone None), marks 2) /\
  _detect_aruco_markers (__init__ drone None) DetectRaises =
  (false, __init__ drone None, []).
Proof.
  split; [|split].
  - apply (proj1 (detection_records_last_marker (__init__ drone None))
             [(Id 7, (320, 240))] 9 (100, 80)).
    reflexivity.
  - apply (proj1 (proj2 (detection_records_last_marker
                           (__init__ drone None)))
             [(Id 7, (320, 240))] [(Id 3, (5, 5))] (100, 80)).
    reflexivity.
  - apply (proj2 (proj2 (detection_records_last_marker
                           (__init__ drone None)))).
    by right.
Defined.


(** ** The charging-spot fields *)

Section SpotProperty.

(** A relation between the flag and the position that holds when
    nothing is recorded and after any marker is recorded. *)
Variable P : bool -> option point -> Prop.
Hypothesis cleared : P false None.
Hypothesis marked : forall b p c, P b p -> P true (Some c).

Let Q (s : EnhancedSimulation) : Prop :=
  P (charging_spot_found s) (charging_spot_position s).

Lemma spot_search w s now : Q s -> Q (after (_search_charging_spot w s now)).
Proof.
  apply search_preserves. intros s' c H. exact (marked _ _ c H).
Qed.

Lemma spot_process w s l now :
  Q s -> Q (sim (_process_battery_level w s l now)).
Proof.
  intros H. unfold _process_battery_level.
  destruct (negb _); [|exact H].
  destruct (status_eqb _ CRITICAL); [|exact H].
  unfold _handle_critical_battery. cbn [sim].
  by apply spot_search.
Qed.

Lemma spot_perform o s now : Q s -> Q (fst (perform o s now)).
Proof.
  intros H. destruct o; cbn [perform fst]; try exact H.
  - unfold start_monitoring. by destruct (is_monitoring s).
  - unfold monitor_cycle.
    destruct (_get_battery_level s (reading c)) as [l|];
      case_innermost; cbn [sim]; try exact H; by apply spot_process.
  - by apply spot_process.
  - by apply spot_search.
  - exact cleared.
Qed.

Lemma spot_perform_all os d cfg now :
  Q (fst (perform_all os (__init__ d cfg) now)).
Proof.
  assert (Q (__init__ d cfg)) as H by exact cleared.
  revert H. generalize (__init__ d cfg). revert now.
  induction os as [|o os IH]; intros now s H; [exact H|].
  cbn [perform_all].
  pose proof (spot_perform o s now H) as H'.
  destruct (perform o s now) as [s' now']. by apply IH.
Qed.

End SpotProperty.

(** X2. Whatever operations follow the construction of the object, the
    flag [charging_spot_found] is set exactly when a position is
    stored. *)
Theorem spot_flag_matches_position (d : Tello)
    (cfg : option (gmap string Z)) (os : list operation) (now : Z) :
  spot_consistent (fst (perform_all os (__init__ d cfg) now)).
Proof.
  apply (spot_perform_all
           (fun b p => b = match p with Some _ => true | None => false end));
    [reflexivity | by intros].
Qed.

Lemma loop_body_marker_in_view s t :
  marker_in_view t = true ->
  match loop_body s t with
  | Exit _ s' _ _ | Next s' _ _ => charging_spot_found s' = true
  end.
Proof.
  unfold marker_in_view, loop_body. intros H.
  destruct (frame1 t) as [|[f|]]; try discriminate.
  destruct (detect1 t) as [|[[|[id c] ms]|]]; try discriminate.
  assert (charging_spot_found
            (snd (fst (_detect_aruco_markers s (Ids (Some ((id, c) :: ms))))))
          = true) as H1.
  { simpl. destruct id as [id|]; [|reflexivity].
    pose proof (record_markers_preserves
                  (fun s => charging_spot_found s = true)
                  (fun _ _ _ => eq_refl) ms
                  (set_charging_spot_found true
                     (set_charging_spot_position (Some c) s)) eq_refl) as H'.
    by destruct (record_markers ms _) as [[completed s2] evs]. }
  destruct (_detect_aruco_markers s (Ids (Some ((id, c) :: ms))))
    as [[markers s1] e1].
  simpl in H1.
  assert (forall took evs,
            match turn s1 t took evs with
            | Exit _ s' _ _ | Next s' _ _ => charging_spot_found s' = true
            end) as Hturn.
  { intros took evs. pose proof (turn_only_spot s1 t took evs) as H3.
    by destruct (turn s1 t took evs); subst. }
  destruct markers; [|apply Hturn].
  pose proof (approach_preserves (fun s => charging_spot_found s = true)
                (fun _ _ _ => eq_refl) s1 t H1) as H2.
  destruct (_approach_charging_spot s1 t) as [[[ok s2] e2] took].
  simpl in H2. destruct ok; [exact H2|].
  pose proof (turn_only_spot s2 t took (e1 ++ e2)) as H3.
  by destruct (turn s2 t took (e1 ++ e2)); subst.
Qed.

Lemma search_loop_marker_in_view w start timeout i s now :
  let r := search_loop w start timeout i s now in
  forall j : nat,
    (i <= j < i + length (laps r))%nat ->
    marker_in_view (ticks w j) = true ->
    charging_spot_found (after r) = true.
Proof.
  apply (search_loop_passes w start timeout (fun i s _ r =>
    forall j : nat,
      (i <= j < i + length (laps r))%nat ->
      marker_in_view (ticks w j) = true ->
      charging_spot_found (after r) = true)); clear i s now; simpl.
  - intros i s now _ j Hj. lia.
  - intros i s now r s' d evs _ Hb j Hj Hm.
    assert (j = i) as -> by lia.
    pose proof (loop_body_marker_in_view s (ticks w i) Hm) as H.
    by rewrite Hb in H.
  - intros i s now s' d evs _ Hb IH j Hj Hm.
    destruct (Nat.eq_dec j i) as [->|Hne].
    + pose proof (loop_body_marker_in_view s (ticks w i) Hm) as H.
      rewrite Hb in H.
      by apply (search_loop_preserves (fun s => charging_spot_found s = true)).
    + apply (IH j); [lia | exact Hm].
Qed.

(** X3. A search never clears the flag [charging_spot_found], and once
    one of its passes has a marker in view the flag is set when the
    search returns, whether it returns [True] or [False]. *)
Theorem sighting_sets_flag (w : world) (s : EnhancedSimulation) (now : Z) :
  let r := _search_charging_spot w s now in
  (charging_spot_found s = true -> charging_spot_found (after r) = true) /\
  (forall j : nat,
      (j < length (laps r))%nat ->
      marker_in_view (ticks w j) = true ->
      charging_spot_found (after r) = true).
Proof.
  split.
  - by apply (search_preserves (fun s => charging_spot_found s = true)).
  - unfold _search_charging_spot.
    pose proof (search_loop_marker_in_view w (now + Z.of_N (setup w))
                  (search_timeout (aruco_config s)) 0 s
                  (now + Z.of_N (setup w))) as Hloop.
    cbv zeta in Hloop.
    destruct (has_get_frame_read (tello s)), (has_streamon (tello s)),
      (streamon w), (get_frame_read w); simpl;
      first [ intros j Hj Hm; apply (Hloop j); [lia | exact Hm]
            | intros j Hj; lia ].
Qed.

Lemma sighting_sets_flag_witness :
  let r := _search_charging_spot fleeting
             (__init__ drone (Some {[ "search_timeout" := 2500 ]})) 0 in
  found r = false /\ charging_spot_found (after r) = true.
Proof.
  split; [reflexivity|].
  apply (proj2 (sighting_sets_flag fleeting
                  (__init__ drone (Some {[ "search_timeout" := 2500 ]})) 0)
           0%nat).
  - vm_compute. lia.
  - reflexivity.
Defined.


(** ** The events of a search *)

Section Events.

(** A property of events that the two charging-spot writes have. *)
Variable P : event -> Prop.
Hypothesis position_written : P (Write ChargingSpotPosition).
Hypothesis flag_written : P (Write ChargingSpotFound).

Lemma record_markers_all ms s : Forall P (snd (record_markers ms s)).
Proof.
  rewrite record_markers_marks.
  induction (iterations ms) as [|n IH]; simpl; by repeat constructor.
Qed.

Lemma detect_all s d : Forall P (snd (_detect_aruco_markers s d)).
Proof.
  destruct d as [|[ms|]]; simpl; try constructor.
  apply record_markers_all.
Qed.

Lemma approach_all s t :
  (has_move_forward (tello s) = true ->
   P (Command (MoveForward (approach_distance (aruco_config s))))) ->
  P (Sleep 2000) ->
  Forall P (snd (fst (_approach_charging_spot s t))).
Proof.
  intros Hmove Hsleep. unfold _approach_charging_spot.
  pose proof (detect_all s (detect2 t)) as H.
  destruct (_detect_aruco_markers s (detect2 t)) as [[ok s'] evs].
  simpl in H.
  destruct (has_move_forward (tello s)), (move t), (frame2 t) as [|[f|]];
    simpl; repeat constructor; auto.
Qed.

End Events.

Lemma count_none p evs :
  Forall (fun e => p e = false) evs -> count p evs = 0%nat.
Proof.
  induction 1 as [|e evs He _ IH]; simpl; [reflexivity|].
  by rewrite He, IH.
Qed.

Lemma permitted_only_spot s s' e :
  only_spot s s' -> permitted s' e = permitted s e.
Proof. by intros (b & p & ->). Qed.

Lemma turn_permitted s0 s t took evs :
  has_get_frame_read (tello s0) = true ->
  only_spot s0 s ->
  Forall (fun e => permitted s0 e = true) evs ->
  match turn s t took evs with
  | Exit _ _ _ evs' | Next _ _ evs' =>
      Forall (fun e => permitted s0 e = true) evs'
  end.
Proof.
  intros Hcam Hs H. unfold turn.
  rewrite (only_spot_tello _ _ Hs).
  destruct (has_rotate_clockwise (tello s0)) eqn:E, (rotate t);
    apply Forall_app; split; try assumption;
    repeat constructor; simpl; by rewrite ?Hcam, ?E.
Qed.

Lemma approach_permitted s0 s t :
  has_get_frame_read (tello s0) = true ->
  only_spot s0 s ->
  Forall (fun e => permitted s0 e = true)
    (snd (fst (_approach_charging_spot s t))).
Proof.
  intros Hcam Hs. apply approach_all; try reflexivity.
  intros Hmove. destruct Hs as (b & p & ->). simpl in *.
  by rewrite Hcam, Hmove, Z.eqb_refl.
Qed.

Lemma loop_body_permitted s0 s t :
  has_get_frame_read (tello s0) = true ->
  only_spot s0 s ->
  match loop_body s t with
  | Exit _ _ _ evs | Next _ _ evs =>
      Forall (fun e => permitted s0 e = true) evs
  end.
Proof.
  intros Hcam Hs. unfold loop_body.
  destruct (frame1 t) as [|[f|]]; [constructor| |by repeat constructor].
  pose proof (detect_all (fun e => permitted s0 e = true)
                eq_refl eq_refl s (detect1 t)) as H1.
  pose proof (detect_only_spot s (detect1 t)) as Hs1.
  destruct (_detect_aruco_markers s (detect1 t)) as [[markers s1] e1].
  simpl in H1, Hs1.
  assert (only_spot s0 s1) as Hs01 by (eapply only_spot_trans; eassumption).
  destruct markers.
  - pose proof (approach_permitted s0 s1 t Hcam Hs01) as H2.
    pose proof (approach_only_spot s1 t) as Hs2.
    destruct (_approach_charging_spot s1 t) as [[[ok s2] e2] took].
    simpl in H2, Hs2.
    assert (Forall (fun e => permitted s0 e = true) (e1 ++ e2)) as H
      by (apply Forall_app; by split).
    destruct ok; [assumption|].
    apply turn_permitted; try assumption.
    eapply only_spot_trans; eassumption.
  - by apply turn_permitted.
Qed.

Lemma search_loop_permitted w start timeout s0 i s now :
  has_get_frame_read (tello s0) = true ->
  only_spot s0 s ->
  Forall (fun e => permitted s0 e = true)
    (events (search_loop w start timeout i s now)).
Proof.
  intros Hcam. revert i s now.
  apply (search_loop_passes w start timeout (fun _ s _ r =>
    only_spot s0 s ->
    Forall (fun e => permitted s0 e = true) (events r))); simpl.
  - intros. constructor.
  - intros i s now r s' d evs _ Hb Hs.
    pose proof (loop_body_permitted s0 s (ticks w i) Hcam Hs) as H.
    by rewrite Hb in H.
  - intros i s now s' d evs _ Hb IH Hs.
    pose proof (loop_body_permitted s0 s (ticks w i) Hcam Hs) as H.
    pose proof (loop_body_only_spot s (ticks w i)) as Hs'.
    rewrite Hb in H, Hs'. apply Forall_app. split; [assumption|].
    apply IH. eapply only_spot_trans; eassumption.
Qed.

(** X4. Every event of a search is one of: the two charging-spot
    writes, a sleep of 0.1, 1 or 2 seconds, or a call of a method the
    drone has, a rotation being by 30 degrees and an advance by
    [approach_distance]. A drone without [get_frame_read] is sent no
    command at all and the object is left as it was. *)
Theorem search_stays_within_capabilities (w : world)
    (s : EnhancedSimulation) (now : Z) :
  let r := _search_charging_spot w s now in
  Forall (fun e => permitted s e = true) (events r) /\
  (has_get_frame_read (tello s) = false ->
   count is_command (events r) = 0%nat /\ found r = false /\
   after r = s /\ clock r = now).
Proof.
  cbv zeta. split.
  - unfold _search_charging_spot.
    destruct (has_get_frame_read (tello s)) eqn:Hcam; simpl;
      [|by repeat constructor].
    pose proof (search_loop_permitted w (now + Z.of_N (setup w))
                  (search_timeout (aruco_config s)) s 0 s
                  (now + Z.of_N (setup w)) Hcam (only_spot_refl s)) as Hloop.
    destruct (has_streamon (tello s)) eqn:Hon; simpl;
      [destruct (streamon w); simpl|];
      try (destruct (get_frame_read w); simpl);
      repeat first
        [ apply Forall_cons; split;
          [simpl; by rewrite ?Hcam, ?Hon|]
        | apply Forall_nil_2
        | exact Hloop ].
  - intros Hcam. unfold _search_charging_spot. by rewrite Hcam.
Qed.

Lemma search_stays_within_capabilities_witness :
  let r := _search_charging_spot lit
             (__init__ (mkTello true false true true true) None) 0 in
  count is_command (events r) = 0%nat /\ found r = false /\
  after r = __init__ (mkTello true false true true true) None /\
  clock r = 0.
Proof.
  apply (proj2 (search_stays_within_capabilities lit
                  (__init__ (mkTello true false true true true) None) 0)).
  reflexivity.
Defined.


(** ** How many passes, how many rotations *)

Lemma turn_rotation s t took evs :
  0 <= took ->
  count is_rotate evs = 0%nat ->
  match turn s t took evs with
  | Exit _ _ _ evs' => (count is_rotate evs' <= 1)%nat
  | Next _ d evs' =>
      (count is_rotate evs' <= 1)%nat /\ 1000 <= d
  end.
Proof.
  intros Htook H. unfold turn.
  destruct (has_rotate_clockwise (tello s)), (rotate t);
    rewrite ?count_app, ?H; simpl; repeat split; lia.
Qed.

Lemma loop_body_rotation s t :
  match loop_body s t with
  | Exit _ _ _ evs => (count is_rotate evs <= 1)%nat
  | Next _ d evs =>
      (count is_rotate evs <= 1)%nat /\ 100 <= d /\
      1000 * Z.of_nat (count is_rotate evs) <= d
  end.
Proof.
  unfold loop_body.
  destruct (frame1 t) as [|[f|]]; simpl; [lia| |lia].
  pose proof (detect_all (fun e => is_rotate e = false)
                eq_refl eq_refl s (detect1 t)) as H1.
  apply count_none in H1.
  destruct (_detect_aruco_markers s (detect1 t)) as [[markers s1] e1].
  simpl in H1.
  assert (forall s' took evs,
    0 <= took -> count is_rotate evs = 0%nat ->
    match turn s' t took evs with
    | Exit _ _ _ evs' => (count is_rotate evs' <= 1)%nat
    | Next _ d evs' =>
        (count is_rotate evs' <= 1)%nat /\ 100 <= d /\
        1000 * Z.of_nat (count is_rotate evs') <= d
    end) as Hturn.
  { intros s' took evs Htook Hevs.
    pose proof (turn_rotation s' t took evs Htook Hevs) as H.
    destruct (turn s' t took evs); [exact H|].
    destruct H as [Hc Hd]. repeat split; lia. }
  destruct markers; [|apply Hturn; [lia | exact H1]].
  pose proof (approach_all (fun e => is_rotate e = false)
                eq_refl eq_refl s1 t (fun _ => eq_refl) eq_refl) as H2.
  apply count_none in H2.
  assert (0 <= snd (_approach_charging_spot s1 t)) as Hs.
  { unfold _approach_charging_spot.
    repeat case_innermost; simpl; lia. }
  destruct (_approach_charging_spot s1 t) as [[[ok s2] e2] took].
  simpl in H2, Hs.
  assert (count is_rotate (e1 ++ e2) = 0%nat) as H12
    by (rewrite count_app; lia).
  destruct ok; [lia | by apply Hturn].
Qed.

Lemma total_app ds ds' : total (ds ++ ds') = total ds + total ds'.
Proof. induction ds as [|d ds IH]; simpl; lia. Qed.

Lemma search_loop_pace w start timeout i s now :
  let r := search_loop w start timeout i s now in
  (laps r = [] /\ events r = []) \/
  exists ds d,
    laps r = ds ++ [d] /\
    now - start + total ds < timeout /\
    100 * Z.of_nat (length ds) <= total ds /\
    1000 * Z.of_nat (count is_rotate (events r)) <= total ds + 1000.
Proof.
  apply (search_loop_passes w start timeout (fun _ _ now r =>
    (laps r = [] /\ events r = []) \/
    exists ds d,
      laps r = ds ++ [d] /\
      now - start + total ds < timeout /\
      100 * Z.of_nat (length ds) <= total ds /\
      1000 * Z.of_nat (count is_rotate (events r)) <= total ds + 1000));
    clear i s now; simpl.
  - intros. by left.
  - intros i s now r s' d evs Hlt Hb. right. exists [], d.
    pose proof (loop_body_rotation s (ticks w i)) as H. rewrite Hb in H.
    simpl. repeat split; lia.
  - intros i s now s' d evs Hlt Hb IH. right.
    pose proof (loop_body_rotation s (ticks w i)) as H. rewrite Hb in H.
    destruct H as (Hc & Hd & Hr).
    destruct IH as [[-> ->] | (ds & d' & -> & Hds & Hlen & Hrot)].
    + exists [], d. rewrite app_nil_r. simpl. repeat split; lia.
    + exists (d :: ds), d'. rewrite count_app. simpl.
      repeat split; lia.
Qed.


Lemma search_loop_no_lap w start timeout i s now :
  let r := search_loop w start timeout i s now in
  laps r = [] -> found r = false /\ after r = s.
Proof.
  apply (search_loop_passes w start timeout (fun _ s _ r =>
    laps r = [] -> found r = false /\ after r = s));
    clear i s now; simpl; [by intros | discriminate..].
Qed.

Lemma search_pace_loop w s now :
  let timeout := search_timeout (aruco_config s) in
  let start := now + Z.of_N (setup w) in
  let r := search_loop w start timeout 0 s start in
  100 * Z.of_nat (length (laps r)) < Z.max 0 timeout + 100 /\
  1000 * Z.of_nat (count is_rotate (events r)) < Z.max 0 timeout + 1000 /\
  (timeout <= 0 -> laps r = [] /\ found r = false /\ after r = s).
Proof.
  cbv zeta.
  pose proof (search_loop_pace w (now + Z.of_N (setup w))
                (search_timeout (aruco_config s)) 0 s
                (now + Z.of_N (setup w))) as Hpace.
  pose proof (search_loop_no_lap w (now + Z.of_N (setup w))
                (search_timeout (aruco_config s)) 0 s
                (now + Z.of_N (setup w))) as Hidle.
  cbv zeta in Hpace, Hidle.
  destruct Hpace as [[Hl He] | (ds & d & Hl & Hds & Hlen & Hrot)].
  - rewrite Hl, He. simpl. split; [lia|]. split; [lia|].
    intros _. split; [reflexivity | by apply Hidle].
  - rewrite Hl, length_app, Nat2Z.inj_add. simpl.
    split; [lia|]. split; [lia|]. intros Hto. lia.
Qed.

(** X5. The number of passes of a search and the number of rotations
    it commands are bounded by the timeout: a pass that goes round
    again takes at least 0.1 s and one that rotates at least 1 s, so
    there are fewer than [timeout / 0.1 s + 1] passes and fewer than
    [timeout / 1 s + 1] rotations. With a timeout of zero or less no
    pass is made, the search returns [False] and the object is left as
    it was. *)
Theorem search_pace (w : world) (s : EnhancedSimulation) (now : Z) :
  let r := _search_charging_spot w s now in
  let timeout := search_timeout (aruco_config s) in
  100 * Z.of_nat (length (laps r)) < Z.max 0 timeout + 100 /\
  1000 * Z.of_nat (count is_rotate (events r)) < Z.max 0 timeout + 1000 /\
  (timeout <= 0 -> laps r = [] /\ found r = false /\ after r = s).
Proof.
  cbv zeta. unfold _search_charging_spot.
  pose proof (search_pace_loop w s now) as Hloop. cbv zeta in Hloop.
  destruct (has_get_frame_read (tello s)), (has_streamon (tello s)),
    (streamon w), (get_frame_read w); simpl;
    first [ exact Hloop
          | repeat split; lia ].
Qed.

Lemma search_pace_witness :
  let s := __init__ drone (Some {[ "search_timeout" := 0 ]}) in
  let r := _search_charging_spot lit s 0 in
  laps r = [] /\ found r = false /\ after r = s.
Proof.
  apply (proj2 (proj2 (search_pace lit
           (__init__ drone (Some {[ "search_timeout" := 0 ]})) 0))).
  vm_compute. discriminate.
Defined.

(** X6. When switching the stream on raises, or [get_frame_read]
    raises, the search ends before its first pass: it returns [False],
    leaves the object as it was and commands neither a rotation nor an
    advance. *)
Theorem search_aborts_on_setup_failure (w : world)
    (s : EnhancedSimulation) (now : Z) :
  has_get_frame_read (tello s) = true ->
  (has_streamon (tello s) = true /\ streamon w = Raises) \/
  get_frame_read w = Raises ->
  let r := _search_charging_spot w s now in
  found r = false /\ laps r = [] /\ after r = s /\ clock r = now /\
  Forall (fun e => e = SearchStart \/ e = Command StreamOn \/
                   e = Command GetFrameRead) (events r).
Proof.
  intros Hcam H. unfold _search_charging_spot. rewrite Hcam.
  destruct H as [[Hon Hs] | Hg].
  - rewrite Hon, Hs. simpl. do 4 (split; [reflexivity|]).
    repeat (apply Forall_cons; split; [auto|]). apply Forall_nil_2.
  - rewrite Hg.
    destruct (has_streamon (tello s)); simpl;
      [destruct (streamon w); simpl|];
      do 4 (split; [reflexivity|]);
      repeat (apply Forall_cons; split; [auto|]); apply Forall_nil_2.
Qed.

Lemma search_aborts_on_setup_failure_witness :
  let r := _search_charging_spot jammed (__init__ drone None) 0 in
  found r = false /\ laps r = [] /\ after r = __init__ drone None /\
  clock r = 0 /\
  Forall (fun e => e = SearchStart \/ e = Command StreamOn \/
                   e = Command GetFrameRead) (events r).
Proof.
  apply (search_aborts_on_setup_failure jammed (__init__ drone None) 0).
  - reflexivity.
  - left. split; reflexivity.
Defined.


(** ** The monitor loop *)

Lemma get_battery_level_valid s r l :
  _get_battery_level s r = Some l ->
  has_get_battery (tello s) = true /\ r = ReadValue (Some l) /\
  0 <= l <= 100.
Proof.
  unfold _get_battery_level.
  destruct (has_get_battery (tello s)); [|discriminate].
  destruct r as [|[b|]]; try discriminate.
  destruct (Z.leb_spec 0 b), (Z.leb_spec b 100); simpl; try discriminate.
  intros [= ->]. repeat split; lia.
Qed.

Lemma get_battery_level_tello s s' r :
  tello s' = tello s -> _get_battery_level s' r = _get_battery_level s r.
Proof. unfold _get_battery_level. by intros ->. Qed.

Lemma valid_samples_tello s s' cycles :
  tello s' = tello s -> valid_samples s' cycles = valid_samples s cycles.
Proof.
  intros H. induction cycles as [|c rest IH]; simpl; [reflexivity|].
  by rewrite (get_battery_level_tello s s' _ H), IH.
Qed.

Lemma valid_samples_range s cycles :
  Forall (fun x : sample => 0 <= fst x <= 100) (valid_samples s cycles).
Proof.
  induction cycles as [|c rest IH]; simpl; [constructor|].
  destruct (_get_battery_level s (reading c)) as [l|] eqn:E; [|exact IH].
  apply get_battery_level_valid in E. constructor; [simpl; lia | exact IH].
Qed.

Lemma process_tello w s l now :
  tello (sim (_process_battery_level w s l now)) = tello s.
Proof. by destruct (process_sim w s l now) as (b & p & ->). Qed.

Lemma process_is_monitoring w s l now :
  is_monitoring (sim (_process_battery_level w s l now)) = is_monitoring s.
Proof. by destruct (process_sim w s l now) as (b & p & ->). Qed.

Lemma process_level w s l now :
  last_battery_level (sim (_process_battery_level w s l now)) = l.
Proof. by destruct (process_sim w s l now) as (b & p & ->). Qed.

(** One round of the loop: the object after it is the one
    [_process_battery_level] leaves for a valid reading, and the same
    object for any other reading. *)
Lemma monitor_cycle_sim c s now :
  sim (monitor_cycle c s now) =
  match _get_battery_level s (reading c) with
  | Some l => sim (_process_battery_level (around c) s l now)
  | None => s
  end.
Proof.
  unfold monitor_cycle.
  by destruct (_get_battery_level s (reading c)); case_innermost.
Qed.

Lemma monitor_cycle_trace c s now :
  exists pause,
    trace (monitor_cycle c s now) =
    match _get_battery_level s (reading c) with
    | Some l => trace (_process_battery_level (around c) s l now)
    | None => []
    end ++ [Sleep pause].
Proof.
  unfold monitor_cycle.
  destruct (_get_battery_level s (reading c)); case_innermost;
    eexists; reflexivity.
Qed.

Lemma monitor_loop_cache cycles s now :
  is_monitoring s = true ->
  let e := _battery_monitor_loop cycles s now in
  last_battery_level (sim e) =
    match last (valid_samples s cycles) with
    | Some (l, _) => l
    | None => last_battery_level s
    end /\
  current_battery_status (sim e) =
    match last (valid_samples s cycles) with
    | Some (l, _) => new_status (battery_config s) l
    | None => current_battery_status s
    end.
Proof.
  cbv zeta. revert s now.
  induction cycles as [|c rest IH]; intros s now Hm; [by split|].
  cbn [_battery_monitor_loop valid_samples]. rewrite Hm. cbn [sim].
  pose proof (monitor_cycle_sim c s now) as Hs.
  destruct (_get_battery_level s (reading c)) as [l|] eqn:E.
  - assert (is_monitoring (sim (monitor_cycle c s now)) = true) as Hm'
      by (by rewrite Hs, process_is_monitoring).
    destruct (IH _ (time (monitor_cycle c s now)) Hm') as [IHl IHs].
    rewrite (valid_samples_tello s) in IHl, IHs
      by (by rewrite Hs, process_tello).
    rewrite IHl, IHs, last_cons, Hs.
    rewrite process_level, process_status, process_battery_config.
    by destruct (last (valid_samples s rest)) as [[l' w']|].
  - rewrite Hs in *. by apply IH.
Qed.

(** X7. While the monitor loop runs, the object caches the most recent
    reading that [_get_battery_level] accepted, and its status is the
    classification of that reading; readings that are missing, raise or
    fall outside 0..100 leave both as they were. The cached level thus
    stays within 0..100. *)
Theorem monitor_caches_last_valid_reading (cycles : list cycle)
    (s : EnhancedSimulation) (now : Z) :
  is_monitoring s = true ->
  let e := _battery_monitor_loop cycles s now in
  (last_battery_level (sim e) =
     match last (valid_samples s cycles) with
     | Some (l, _) => l
     | None => last_battery_level s
     end /\
   current_battery_status (sim e) =
     match last (valid_samples s cycles) with
     | Some (l, _) => new_status (battery_config s) l
     | None => current_battery_status s
     end) /\
  (0 <= last_battery_level s <= 100 ->
   0 <= last_battery_level (sim e) <= 100).
Proof.
  intros Hm. cbv zeta.
  destruct (monitor_loop_cache cycles s now Hm) as [Hl Hs].
  split; [by split|]. intros Hrange. rewrite Hl.
  pose proof (valid_samples_range s cycles) as Hv.
  destruct (last (valid_samples s cycles)) as [[l w]|] eqn:E; [|exact Hrange].
  apply last_Some in E as [vs E]. rewrite E in Hv.
  apply Forall_app in Hv as [_ Hv]. by inversion Hv.
Qed.


Lemma monitor_caches_last_valid_reading_witness :
  let e := _battery_monitor_loop rounds started 0 in
  (last_battery_level (sim e) =
     match last (valid_samples started rounds) with
     | Some (l, _) => l
     | None => last_battery_level started
     end /\
   current_battery_status (sim e) =
     match last (valid_samples started rounds) with
     | Some (l, _) => new_status (battery_config started) l
     | None => current_battery_status started
     end) /\
  (0 <= last_battery_level started <= 100 ->
   0 <= last_battery_level (sim e) <= 100).
Proof.
  apply (monitor_caches_last_valid_reading rounds started 0).
  reflexivity.
Defined.

(** What one round adds to the counts of callbacks and searches. *)
Lemma monitor_cycle_counts c s now p :
  p (Sleep (check_interval (battery_config s))) = false ->
  p (Sleep 1000) = false ->
  count p (trace (monitor_cycle c s now)) =
  match _get_battery_level s (reading c) with
  | Some l => count p (trace (_process_battery_level (around c) s l now))
  | None => 0%nat
  end.
Proof.
  intros Hp Hp'. unfold monitor_cycle.
  destruct (_get_battery_level s (reading c)) as [l|];
    rewrite ?process_battery_config; case_innermost; cbn [trace];
    rewrite ?count_app; simpl; rewrite ?Hp, ?Hp'; lia.
Qed.

(** X8. In the monitor loop the callbacks and the search follow the
    readings that [_get_battery_level] accepts: over any rounds, the
    battery-change callback (when registered) is invoked once per
    change of status among the accepted readings, and the search once
    per change into Critical; rejected readings invoke nothing. *)
Theorem monitor_loop_fires_on_valid_readings (cycles : list cycle)
    (s : EnhancedSimulation) (now : Z) :
  is_monitoring s = true ->
  let tr := trace (_battery_monitor_loop cycles s now) in
  let sts := classify_all (battery_config s) (valid_samples s cycles) in
  count is_battery_callback tr =
    match battery_callback s with
    | Some _ => transitions (current_battery_status s) sts
    | None => 0%nat
    end /\
  count is_search_start tr =
    critical_entries (current_battery_status s) sts.
Proof.
  cbv zeta. revert s now.
  induction cycles as [|c rest IH]; intros s now Hm.
  - simpl. by destruct (battery_callback s).
  - cbn [_battery_monitor_loop valid_samples]. rewrite Hm. cbn [trace].
    rewrite !count_app, !monitor_cycle_counts by reflexivity.
    pose proof (monitor_cycle_sim c s now) as Hs.
    destruct (_get_battery_level s (reading c)) as [l|] eqn:E.
    + assert (is_monitoring (sim (monitor_cycle c s now)) = true) as Hm'
        by (by rewrite Hs, process_is_monitoring).
      destruct (IH _ (time (monitor_cycle c s now)) Hm') as [IHb IHs].
      rewrite (valid_samples_tello s) in IHb, IHs
        by (by rewrite Hs, process_tello).
      rewrite IHb, IHs, Hs.
      rewrite process_battery_config, process_status,
        process_battery_callback.
      destruct (process_counts (around c) s l now) as (Hb & _ & _ & Hss).
      rewrite Hb, Hss.
      cbn [classify_all map fst transitions critical_entries].
      fold (classify_all (battery_config s) (valid_samples s rest)).
      destruct (status_eqb (new_status (battery_config s) l)
                  (current_battery_status s)),
        (status_eqb (new_status (battery_config s) l) CRITICAL),
        (battery_callback s); simpl; split; lia.
    + rewrite Hs in *. simpl. by apply IH.
Qed.

Lemma monitor_loop_fires_on_valid_readings_witness :
  let tr := trace (_battery_monitor_loop rounds started 0) in
  count is_battery_callback tr = 2%nat /\ count is_search_start tr = 1%nat.
Proof.
  apply (monitor_loop_fires_on_valid_readings rounds started 0).
  reflexivity.
Defined.





(** ** Configuration *)

Lemma update_config_thresholds c s :
  battery_config (fst (update_config c s)) =
  {| warning_threshold :=
       default (warning_threshold (battery_config s))
         (c !! "warning_threshold");
     critical_threshold :=
       default (critical_threshold (battery_config s))
         (c !! "critical_threshold");
     charging_threshold :=
       default (charging_threshold (battery_config s))
         (c !! "charging_threshold");
     check_interval :=
       default (check_interval (battery_config s)) (c !! "check_interval") |}.
Proof.
  unfold update_config. cbn [fst battery_config set_battery_config].
  destruct (battery_config s).
  by destruct (c !! "warning_threshold"), (c !! "critical_threshold"),
    (c !! "charging_threshold"), (c !! "check_interval").
Qed.

(** X10. A configuration update takes effect at the next sample: the
    sample is classified with the thresholds given in the update, and
    with the previous ones where the update gives none. The interval
    of the monitor loop is taken from the update in the same way. *)
Theorem update_applies_to_next_sample (c : gmap string Z)
    (s : EnhancedSimulation) (w : world) (p now : Z) :
  let s' := fst (update_config c s) in
  let old := battery_config s in
  current_battery_status (sim (_process_battery_level w s' p now)) =
    new_status
      {| warning_threshold :=
           default (warning_threshold old) (c !! "warning_threshold");
         critical_threshold :=
           default (critical_threshold old) (c !! "critical_threshold");
         charging_threshold :=
           default (charging_threshold old) (c !! "charging_threshold");
         check_interval := check_interval old |} p /\
  check_interval (battery_config (sim (_process_battery_level w s' p now))) =
    default (check_interval old) (c !! "check_interval").
Proof.
  cbv zeta.
  rewrite process_status, process_battery_config, update_config_thresholds.
  split; reflexivity.
Qed.

(** The scenario of the specification: 25% is Normal under the default
    thresholds and Warning once the warning threshold is 30. *)
Example warning_threshold_raised :
  let s := __init__ drone None in
  let s' := fst (update_config {[ "warning_threshold" := 30 ]} s) in
  current_battery_status (sim (_process_battery_level dark s 25 0)) = NORMAL /\
  current_battery_status (sim (_process_battery_level dark s' 25 0))
  = WARNING.
Proof. split; reflexivity. Qed.

Lemma set_battery_config_same b s :
  battery_config s = b -> set_battery_config b s = s.
Proof. intros <-. by destruct s. Qed.

(** X11. [update_config] changes the battery configuration and nothing
    else: the search timeout, the approach distance and the stored
    configuration dictionary stay as they were, whatever keys the
    update carries. Applying the same update twice is the same as
    applying it once, and an update with none of the four battery keys
    leaves the object as it was. *)
Theorem update_config_touches_battery_settings_only
    (c : gmap string Z) (s : EnhancedSimulation) :
  let s' := fst (update_config c s) in
  s' = set_battery_config (battery_config s') s /\
  fst (update_config c s') = s' /\
  (c !! "warning_threshold" = None ->
   c !! "critical_threshold" = None ->
   c !! "charging_threshold" = None ->
   c !! "check_interval" = None ->
   update_config c s = (s, [Acquire; Release])).
Proof.
  assert (forall x, fst (update_config c x) =
            set_battery_config (battery_config (fst (update_config c x))) x)
    as Hframe by reflexivity.
  cbv zeta. split; [apply Hframe|]. split.
  - pose proof (update_config_thresholds c s) as Hbc.
    remember (fst (update_config c s)) as s' eqn:Es'.
    rewrite (Hframe s'). apply set_battery_config_same.
    rewrite update_config_thresholds, Hbc. cbn.
    by destruct (c !! "warning_threshold"), (c !! "critical_threshold"),
      (c !! "charging_threshold"), (c !! "check_interval").
  - intros H1 H2 H3 H4.
    assert (snd (update_config c s) = [Acquire; Release]) as Htr
      by (unfold update_config; cbn [snd]; by rewrite H1, H2, H3, H4).
    rewrite (surjective_pairing (update_config c s)), Htr. f_equal.
    rewrite (Hframe s). apply set_battery_config_same.
    rewrite update_config_thresholds, H1, H2, H3, H4.
    by destruct (battery_config s).
Qed.

Lemma update_config_touches_battery_settings_only_witness :
  update_config {[ "search_timeout" := 1 ]} (__init__ drone None) =
  (__init__ drone None, [Acquire; Release]).
Proof.
  apply (proj2 (proj2 (update_config_touches_battery_settings_only
           {[ "search_timeout" := 1 ]} (__init__ drone None))));
    reflexivity.
Defined.

(** X12. Filling a configuration with the values of
    [get_default_config] for the keys it lacks does not change the
    object built from it: both the battery and the marker settings are
    the same, so the defaults of [get_default_config] and the fallbacks
    of [__init__] agree, and keys other than the eight known ones are
    ignored. *)
Theorem defaults_agree (d : Tello) (cfg : gmap string Z) :
  let filled := create_simulation_instance d
                  (Some (cfg ∪ get_default_config)) in
  let plain := create_simulation_instance d (Some cfg) in
  battery_config filled = battery_config plain /\
  aruco_config filled = aruco_config plain /\
  battery_config (create_simulation_instance d None)
  = BatteryConfig_defaults /\
  aruco_config (create_simulation_instance d None) = ArUcoConfig_defaults.
Proof.
  cbv zeta. unfold create_simulation_instance, __init__.
  cbn [battery_config aruco_config default from_option id].
  rewrite !lookup_union.
  split; [|split; [|split; reflexivity]].
  - by destruct (cfg !! "warning_threshold"), (cfg !! "critical_threshold"),
      (cfg !! "charging_threshold"), (cfg !! "check_interval").
  - by destruct (cfg !! "aruco_dict"), (cfg !! "marker_size"),
      (cfg !! "search_timeout"), (cfg !! "approach_distance").
Qed.

(** ** Resetting the charging spot *)

(** X13. [reset_charging_spot_status] undoes all that a search leaves
    in the object: resetting after a search gives the object that
    resetting alone gives. Resetting twice is resetting once, and after
    a reset [get_status] reports no charging spot. *)
Theorem reset_undoes_search (w : world) (s : EnhancedSimulation) (now : Z) :
  let reset (x : EnhancedSimulation) := fst (reset_charging_spot_status x) in
  reset (after (manual_charging_search w s now)) = reset s /\
  reset (reset s) = reset s /\
  st_charging_spot_found (fst (get_status (reset s))) = false /\
  st_charging_spot_position (fst (get_status (reset s))) = None.
Proof.
  cbv zeta. unfold manual_charging_search.
  destruct (search_only_spot w s now) as (b & p & ->).
  repeat split.
Qed.


(** ** Reports *)

(** X14. When [charging_threshold <= critical_threshold <=
    warning_threshold], the report that [get_battery_info] builds from
    the cached level right after a sample was processed agrees with
    the stored status: [is_critical] holds exactly when the status is
    Critical and [is_low] exactly when it is Warning or Critical. *)
Theorem cached_report_agrees_with_status (w : world)
    (s : EnhancedSimulation) (p now : Z) (r : battery_read) :
  charging_threshold (battery_config s)
    <= critical_threshold (battery_config s) ->
  critical_threshold (battery_config s)
    <= warning_threshold (battery_config s) ->
  let s' := sim (_process_battery_level w s p now) in
  _get_battery_level s' r = None ->
  let info := get_battery_info s' r in
  current_level info = p /\
  status info = value (new_status (battery_config s) p) /\
  (is_critical info = true <-> current_battery_status s' = CRITICAL) /\
  (is_low info = true <->
   current_battery_status s' = WARNING \/
   current_battery_status s' = CRITICAL).
Proof.
  intros H1 H2 s' Hr info. subst info. unfold get_battery_info.
  rewrite Hr. cbn. subst s'.
  rewrite process_level, process_status, process_battery_config.
  unfold new_status.
  repeat split;
    repeat match goal with
           | |- context [?a <=? ?b] => destruct (Z.leb_spec a b)
           | H : context [?a <=? ?b] |- _ => destruct (Z.leb_spec a b)
           end;
    try reflexivity; try lia; try discriminate; auto;
    try (intros [|]; discriminate).
Qed.

Lemma cached_report_agrees_with_status_witness :
  let s' := sim (_process_battery_level dark (__init__ drone None) 8 0) in
  let info := get_battery_info s' ReadRaises in
  current_level info = 8 /\
  status info = value (new_status (battery_config (__init__ drone None)) 8) /\
  (is_critical info = true <-> current_battery_status s' = CRITICAL) /\
  (is_low info = true <->
   current_battery_status s' = WARNING \/
   current_battery_status s' = CRITICAL).
Proof.
  apply (cached_report_agrees_with_status dark (__init__ drone None) 8 0
           ReadRaises).
  - vm_compute. discriminate.
  - vm_compute. discriminate.
  - reflexivity.
Defined.

(** With the charging threshold above the critical one the two
    disagree: at 30% the status is Critical and [is_critical] is
    false. *)
Example inverted_thresholds_disagree :
  let s' := sim (_process_battery_level dark
                   (__init__ drone (Some inverted)) 30 0) in
  current_battery_status s' = CRITICAL /\
  is_critical (get_battery_info s' ReadRaises) = false.
Proof. split; reflexivity. Qed.

(** X15. With a valid live read, [get_battery_info] reports the fresh
    level and compares it with the thresholds, while its [status] is
    still the stored one: the fresh level is neither cached nor
    classified. *)
Theorem fresh_read_is_not_classified (s : EnhancedSimulation)
    (r : battery_read) (b : Z) :
  _get_battery_level s r = Some b ->
  let info := get_battery_info s r in
  current_level info = b /\ 0 <= current_level info <= 100 /\
  status info = value (current_battery_status s) /\
  (is_low info = true <-> b <= warning_threshold (battery_config s)) /\
  (is_critical info = true <-> b <= critical_threshold (battery_config s)).
Proof.
  intros H. unfold get_battery_info. rewrite H. cbn.
  apply get_battery_level_valid in H as (_ & _ & Hb).
  repeat split; try lia; try apply Z.leb_le; by intros ?%Z.leb_le.
Qed.

Lemma fresh_read_is_not_classified_witness :
  let info := get_battery_info (__init__ drone None) (ReadValue (Some 4)) in
  current_level info = 4 /\ 0 <= current_level info <= 100 /\
  status info = "normal" /\
  (is_low info = true <-> 4 <= 20) /\
  (is_critical info = true <-> 4 <= 10).
Proof.
  apply (fresh_read_is_not_classified (__init__ drone None)
           (ReadValue (Some 4)) 4).
  reflexivity.
Defined.

(** ** Callbacks *)

Lemma process_no_status_callback w s l now :
  count is_status_callback (trace (_process_battery_level w s l now))
  = 0%nat.
Proof.
  unfold _process_battery_level, _handle_critical_battery.
  repeat case_innermost; cbn [trace]; rewrite ?count_app; cbn [count];
    rewrite ?count_app, ?count_search by loop_event_excluded; reflexivity.
Qed.

(** X16. The generic status callback is stored and never invoked:
    neither the monitor loop, over any rounds, nor a manual search
    calls it. Callbacks are only invoked from the processing of a
    sample: a search by itself invokes none. *)
Theorem status_callback_is_never_invoked :
  (forall (cycles : list cycle) (s : EnhancedSimulation) (now : Z),
      count is_status_callback (trace (_battery_monitor_loop cycles s now))
      = 0%nat) /\
  (forall (w : world) (s : EnhancedSimulation) (now : Z),
      count is_callback (events (manual_charging_search w s now)) = 0%nat).
Proof.
  split.
  - intros cycles. induction cycles as [|c rest IH]; intros s now;
      [reflexivity|].
    cbn [_battery_monitor_loop]. destruct (is_monitoring s); [|reflexivity].
    cbn [trace]. rewrite count_app, IH.
    rewrite monitor_cycle_counts by reflexivity.
    destruct (_get_battery_level s (reading c));
      [by rewrite process_no_status_callback | reflexivity].
  - intros w s now. unfold manual_charging_search.
    by rewrite count_search by loop_event_excluded.
Qed.

End EnhancedFacts.
